(** * dog_pool: connection wrappers for Redis and Thrift/HBase

    A shallow embedding of the connection wrappers of the [dog_pool]
    package and of the batch command factories, followed by the
    properties of the wrappers.

    Conventions of the embedding.
    - A Go pointer that may be nil is an [option]; a method that would
      dereference a nil pointer returns [None] (a run-time panic).
    - The raw protocol clients (radix' [redis.Client], the generated
      [thrift.HbaseClient]) are libraries outside the package.  They are
      taken as an interface: a type of client states, a type [World] for
      the network and the servers behind it, and one state-passing
      function per library call.
    - [Logger] and [StopWatch] calls only observe; they are left out.
      A connection is taken to hold a logger: with a nil [Logger] every
      method panics at its first log call, a case the model does not
      cover. *)

From Stdlib Require Import ZArith Lia String Ascii List SpecFloat DecimalString.
From Stdlib Require Strings.Byte.
From stdpp Require Import base option list gmap strings.

Local Open Scope Z_scope.
Local Open Scope string_scope.

(** ** Shared data *)

(** [time.Duration]: a count of nanoseconds in an int64. *)
Definition Duration := Z.
Definition Nanosecond : Duration := 1.
Definition Microsecond : Duration := 1000 * Nanosecond.
Definition Millisecond : Duration := 1000 * Microsecond.
Definition Second : Duration := 1000 * Millisecond.

(** A non-nil Go [error].  The package only ever looks at the message
    of an error ([err.Error()]), so an error is its message. *)
Record error := errors_New { Error : string }.

Definition bytes := list Byte.byte.

(** [redis.Reply]: the [Type] field tags which of the other fields is
    meaningful, so a reply is a tagged union; [Err] is non-nil exactly
    for an [ErrorReply]. *)
#[warnings="-register-all"]
Inductive redis_Reply :=
| StatusReply (buf : bytes)
| ErrorReply (err : error)
| IntegerReply (int : Z)
| NilReply
| BulkReply (buf : bytes)
| MultiReply (elems : list redis_Reply).

Definition Err (reply : redis_Reply) : option error :=
  match reply with
  | ErrorReply err => Some err
  | _ => None
  end.

(** Modelled from the spec: the struct [RedisBatchCommand], declared in
    a file that is not at hand; "a mutable command descriptor (name,
    ordered argument byte-sequences, reply slot)".  The fields are named
    as [BatchCommands] reads them.  [Args] is a slice, [None] when nil;
    [Reply] is a pointer, [None] when nil. *)
Record RedisBatchCommand := mkRedisBatchCommand {
  Cmd : string;
  Args : option (list bytes);
  Reply : option redis_Reply
}.

Definition set_Reply (reply : option redis_Reply) (c : RedisBatchCommand) :=
  {| Cmd := Cmd c; Args := Args c; Reply := reply |}.

Definition set_Args (args : option (list bytes)) (c : RedisBatchCommand) :=
  {| Cmd := Cmd c; Args := args; Reply := Reply c |}.

(** Batch commands are handled through pointers: a batch is a slice of
    pointers into a store of commands.  A pointer outside the store is
    nil. *)
Abbreviation ptr := nat (only parsing).
Abbreviation store := (gmap ptr RedisBatchCommand) (only parsing).

(** Every pointer of the batch points to a command. *)
Definition allocated (h : store) (commands : list ptr) : Prop :=
  forall q, q ∈ commands -> is_Some (h !! q).

(** ** The Redis connection wrapper *)

(** The radix client library and the package-level values the wrapper
    refers to. *)
Class RadixClient := {
  World : Type;
  redis_Client : Type;
  (** [redis.DialTimeout(network, addr, timeout)] *)
  redis_DialTimeout :
    string -> string -> Duration -> World -> (redis_Client + error) * World;
  (** [redis.Client.Close()] *)
  Client_Close : redis_Client -> World -> option error * World;
  (** [redis.Client.Append(cmd, args...)] *)
  Client_Append :
    redis_Client -> string -> list bytes -> World -> redis_Client * World;
  (** [redis.Client.GetReply()] *)
  Client_GetReply : redis_Client -> World -> redis_Reply * redis_Client * World;
  redis_AuthError : error;
  redis_LoadingError : error;
  redis_ParseError : error;
  redis_PipelineQueueEmptyError : error;
  (** package variable of [dog_pool], declared outside the files at hand *)
  ErrConnectionIsClosed : error;
  (** [fmt.Sprintf("%v", command)] *)
  Sprintf_v : RedisBatchCommand -> string
}.

Module Redis.
Section Wrapper.
Context `{RadixClient}.

Record RedisConnection := mkRedisConnection {
  Url : string;
  Id : string;
  Timeout : Duration;
  client : option redis_Client
}.

Definition set_client (k : option redis_Client) (p : RedisConnection) :=
  {| Url := Url p; Id := Id p; Timeout := Timeout p; client := k |}.

Definition set_Timeout (t : Duration) (p : RedisConnection) :=
  {| Url := Url p; Id := Id p; Timeout := t; client := client p |}.

(** The factories' [logger] argument goes into the [Logger] field, which
    the record leaves out; it is taken not to be nil. *)
Definition makeLazyRedisConnection (url id : string) (timeout : Duration)
  : RedisConnection * option error :=
  ({| Url := url; Id := id; Timeout := timeout; client := None |}, None).

Definition IsOpen (p : RedisConnection) : bool :=
  match client p with
  | Some _ => true
  | None => false
  end.

Definition IsClosed (p : RedisConnection) : bool :=
  match client p with
  | None => true
  | Some _ => false
  end.

Definition Close (p : RedisConnection) (w : World)
  : option error * RedisConnection * World :=
  let '(err, w1) :=
    match client p with
    | Some k => Client_Close k w
    | None => (None, w)
    end in
  (err, set_client None p, w1).

Definition Open (p : RedisConnection) (w : World)
  : option error * RedisConnection * World :=
  let p0 := if Z.eqb 0 (Timeout p) then set_Timeout (10 * Second) p else p in
  match redis_DialTimeout "tcp" (Url p0) (Timeout p0) w with
  | (inr err, w1) => (Some err, p0, w1)
  | (inl k, w1) => (None, set_client (Some k) p0, w1)
  end.

(** [p.client.Append(cmd, args...)]; [None] is the nil dereference. *)
Definition client_Append (p : RedisConnection) (cmd : string)
    (args : list bytes) (w : World) : option (RedisConnection * World) :=
  match client p with
  | None => None
  | Some k =>
      let '(k1, w1) := Client_Append k cmd args w in
      Some (set_client (Some k1) p, w1)
  end.

Definition Append (p : RedisConnection) (cmd : string) (args : list bytes)
    (w : World) : option (RedisConnection * World) :=
  if negb (IsOpen p) then
    match Open p w with
    | (Some err, p1, w1) => Some (p1, w1)
    | (None, p1, w1) => client_Append p1 cmd args w1
    end
  else client_Append p cmd args w.

(** The four error messages [GetReply] only warns about. *)
Definition ignored (msg : string) : bool :=
  String.eqb msg (Error redis_AuthError)
  || String.eqb msg (Error redis_LoadingError)
  || String.eqb msg (Error redis_ParseError)
  || String.eqb msg (Error redis_PipelineQueueEmptyError).

(** The test [!p.IsOpen()] and the use of [p.client] look at the same
    field with nothing in between, hence the single match. *)
Definition GetReply (p : RedisConnection) (w : World)
  : redis_Reply * RedisConnection * World :=
  match client p with
  | None => (ErrorReply ErrConnectionIsClosed, p, w)
  | Some k =>
      let '(reply, k1, w1) := Client_GetReply k w in
      let p1 := set_client (Some k1) p in
      match reply with
      | ErrorReply err =>
          if ignored (Error err) then (reply, p1, w1)
          else let '(_, p2, w2) := Close p1 w1 in (reply, p2, w2)
      | _ => (reply, p1, w1)
      end
  end.

(** The method [Cmd]; the plain name is taken by the field of
    [RedisBatchCommand]. *)
Definition Cmd_ (p : RedisConnection) (cmd : string) (args : list bytes)
    (w : World) : option (redis_Reply * RedisConnection * World) :=
  match Append p cmd args w with
  | None => None
  | Some (p1, w1) => Some (GetReply p1 w1)
  end.

Definition Ping (p : RedisConnection) (w : World)
  : option (option error * RedisConnection * World) :=
  match Cmd_ p "ping" [] w with
  | None => None
  | Some (reply, p1, w1) => Some (Err reply, p1, w1)
  end.

Definition makeAgressiveRedisConnection (url id : string)
    (timeout : Duration) (w : World)
  : option (option RedisConnection * option error * World) :=
  let '(p, _) := makeLazyRedisConnection url id timeout in
  match Ping p w with
  | None => None
  | Some (Some err, p1, w1) =>
      let '(_, _, w2) := Close p1 w1 in Some (None, Some err, w2)
  | Some (None, p1, w1) => Some (Some p1, None, w1)
  end.

(** First loop of [BatchCommands]: one [Append] per command. *)
Fixpoint appendCommands (p : RedisConnection) (commands : list ptr)
    (h : store) (w : World) : option (RedisConnection * World) :=
  match commands with
  | [] => Some (p, w)
  | command :: rest =>
      match h !! command with
      | None => None
      | Some c =>
          let appended :=
            match Args c with
            | None => Append p (Cmd c) [] w
            | Some args => Append p (Cmd c) args w
            end in
          match appended with
          | None => None
          | Some (p1, w1) => appendCommands p1 rest h w1
          end
      end
  end.

Definition closed_message (c : RedisBatchCommand) : string :=
  String.append
    "[BatchCommands] Connection closed while getting reply for cmd = "
    (Sprintf_v c).

(** Second loop of [BatchCommands]: one [GetReply] per command, stored
    through the command's pointer; returns as soon as the connection is
    closed. *)
Fixpoint getReplies (p : RedisConnection) (commands : list ptr)
    (h : store) (w : World)
  : option (option error * RedisConnection * store * World) :=
  match commands with
  | [] => Some (None, p, h, w)
  | command :: rest =>
      let '(reply, p1, w1) := GetReply p w in
      match h !! command with
      | None => None
      | Some c =>
          let c1 := set_Reply (Some reply) c in
          let h1 := <[command := c1]> h in
          if IsClosed p1
          then Some (Some (errors_New (closed_message c1)), p1, h1, w1)
          else getReplies p1 rest h1 w1
      end
  end.

Definition BatchCommands (p : RedisConnection) (commands : list ptr)
    (h : store) (w : World)
  : option (option error * RedisConnection * store * World) :=
  match appendCommands p commands h w with
  | None => None
  | Some (p1, w1) => getReplies p1 commands h w1
  end.

Definition Clone (p : RedisConnection) : RedisConnection :=
  let '(connection, _) := makeLazyRedisConnection (Url p) (Id p) (Timeout p) in
  connection.

(** The deprecated accessor [Client]: the client pointer and an error. *)
Definition Client (p : RedisConnection) (w : World)
  : option redis_Client * option error * RedisConnection * World :=
  if IsOpen p then (client p, None, p, w)
  else
    match Open p w with
    | (Some err, p1, w1) => (None, Some err, p1, w1)
    | (None, p1, w1) => (client p1, None, p1, w1)
    end.

(** *** Vocabulary for the statements about [BatchCommands] *)

(** An error reply whose message is not one of the four ignored ones. *)
Definition fatal (reply : redis_Reply) : bool :=
  match reply with
  | ErrorReply err => negb (ignored (Error err))
  | _ => false
  end.

(** The replies of [n] successive calls of [GetReply], and the
    connection and world they leave. *)
Fixpoint drain (n : nat) (p : RedisConnection) (w : World)
  : list redis_Reply * RedisConnection * World :=
  match n with
  | O => ([], p, w)
  | S n' =>
      let '(reply, p1, w1) := GetReply p w in
      let '(replies, p2, w2) := drain n' p1 w1 in
      (reply :: replies, p2, w2)
  end.

(** The request a command stands for: keyword and arguments. *)
Definition request_of (c : RedisBatchCommand) : string * list bytes :=
  (Cmd c, match Args c with Some args => args | None => [] end).

(** The library client after the requests were appended to it in order. *)
Fixpoint Client_Appends (k : redis_Client) (reqs : list (string * list bytes))
    (w : World) : redis_Client * World :=
  match reqs with
  | [] => (k, w)
  | (cmd, args) :: rest =>
      let '(k1, w1) := Client_Append k cmd args w in Client_Appends k1 rest w1
  end.

(** The replies the library client hands out on [n] successive reads. *)
Fixpoint Client_GetReplies (n : nat) (k : redis_Client) (w : World)
  : list redis_Reply * redis_Client * World :=
  match n with
  | O => ([], k, w)
  | S n' =>
      let '(reply, k1, w1) := Client_GetReply k w in
      let '(replies, k2, w2) := Client_GetReplies n' k1 w1 in
      (reply :: replies, k2, w2)
  end.

(** *** The library client as a pipeline in front of a server *)

(** The answers of a server to a sequence of requests served one after
    the other: [respond req s] is the answer to [req] in the state [s]
    and the state it leaves. *)
Fixpoint responses {S : Type}
    (respond : string * list bytes -> S -> redis_Reply * S)
    (reqs : list (string * list bytes)) (s : S) : list redis_Reply :=
  match reqs with
  | [] => []
  | req :: rest => (respond req s).1 :: responses respond rest (respond req s).2
  end.



End Wrapper.
End Redis.

(** ** The Thrift/HBase connection wrapper *)

(** The generated [thrift.HbaseClient] and the types of its catalogue
    that the modelled operations mention. *)
Class HbaseLibrary := {
  Net : Type;
  thrift_HbaseClient : Type;
  thrift_TCell : Type;
  (** the zero value [&thrift.HbaseClient{}] *)
  HbaseClient_zero : thrift_HbaseClient;
  (** [client.Open(url, timeout)] *)
  HbaseClient_Open :
    thrift_HbaseClient -> string -> Duration -> Net ->
    option error * thrift_HbaseClient * Net;
  (** [client.Close()] *)
  HbaseClient_Close : thrift_HbaseClient -> Net -> option error * Net;
  (** [client.AtomicIncrement(TableName, Row, Column, Value)] *)
  HbaseClient_AtomicIncrement :
    thrift_HbaseClient -> string -> string -> string -> Z -> Net ->
    Z * option error * thrift_HbaseClient * Net;
  (** [client.Get(TableName, Row, Column, Attributes)] *)
  HbaseClient_Get :
    thrift_HbaseClient -> string -> string -> string -> gmap string string ->
    Net -> option (list thrift_TCell) * option error * thrift_HbaseClient * Net;
  (** [client.Compact(TableNameOrRegionName)] *)
  HbaseClient_Compact :
    thrift_HbaseClient -> string -> Net ->
    option error * thrift_HbaseClient * Net
}.

Module Thrift.
Section Wrapper.
Context `{HbaseLibrary}.

Record ThriftConnection := mkThriftConnection {
  Url : string;
  Id : string;
  Timeout : Duration;
  client : option thrift_HbaseClient
}.

Definition set_client (k : option thrift_HbaseClient) (p : ThriftConnection) :=
  {| Url := Url p; Id := Id p; Timeout := Timeout p; client := k |}.

Definition set_Timeout (t : Duration) (p : ThriftConnection) :=
  {| Url := Url p; Id := Id p; Timeout := t; client := client p |}.

(** The factories' [logger] argument goes into the [Logger] field, which
    the record leaves out; it is taken not to be nil. *)
Definition makeLazyThriftConnection (url id : string) (timeout : Duration)
  : ThriftConnection * option error :=
  ({| Url := url; Id := id; Timeout := timeout; client := None |}, None).

(** The body of [Ping] is a stub: [return nil]. *)
Definition Ping (p : ThriftConnection) : option error := None.

Definition IsOpen (p : ThriftConnection) : bool :=
  match client p with
  | Some _ => true
  | None => false
  end.

Definition IsClosed (p : ThriftConnection) : bool :=
  match client p with
  | None => true
  | Some _ => false
  end.

Definition Open (p : ThriftConnection) (w : Net)
  : option error * ThriftConnection * Net :=
  let p0 := if Z.eqb 0 (Timeout p) then set_Timeout (10 * Second) p else p in
  match HbaseClient_Open HbaseClient_zero (Url p0) (Timeout p0) w with
  | (Some err, _, w1) => (Some err, p0, w1)
  | (None, k, w1) => (None, set_client (Some k) p0, w1)
  end.

Definition SafeOpen (p : ThriftConnection) (w : Net)
  : option error * ThriftConnection * Net :=
  if IsOpen p then (None, p, w) else Open p w.

Definition Close (p : ThriftConnection) (w : Net)
  : option error * ThriftConnection * Net :=
  let '(err, w1) :=
    match client p with
    | Some k => HbaseClient_Close k w
    | None => (None, w)
    end in
  (err, set_client None p, w1).

Definition makeAgressiveThriftConnection (url id : string)
    (timeout : Duration) (w : Net)
  : option ThriftConnection * option error * Net :=
  let '(p, _) := makeLazyThriftConnection url id timeout in
  match Ping p with
  | Some err => let '(_, _, w1) := Close p w in (None, Some err, w1)
  | None => (Some p, None, w)
  end.

(** The 43 forwarded operations share one body, differing in the
    library call, its arguments and the zero value returned when
    [SafeOpen] fails.  [forwarded zero call] is that body; the result is
    [None] when [p.client] is nil at the call. *)
Definition forwarded {A : Type} (zero : A)
    (call : thrift_HbaseClient -> Net -> A * option error * thrift_HbaseClient * Net)
    (p : ThriftConnection) (w : Net)
  : option (A * option error * ThriftConnection * Net) :=
  match SafeOpen p w with
  | (Some err, p1, w1) => Some (zero, Some err, p1, w1)
  | (None, p1, w1) =>
      match client p1 with
      | None => None
      | Some k =>
          let '(output, err, k1, w2) := call k w1 in
          let p2 := set_client (Some k1) p1 in
          match err with
          | Some _ =>
              let '(_, p3, w3) := Close p2 w2 in Some (output, err, p3, w3)
          | None => Some (output, err, p2, w2)
          end
      end
  end.

Definition AtomicIncrement (p : ThriftConnection)
    (TableName Row Column : string) (Value : Z) (w : Net)
  : option (Z * option error * ThriftConnection * Net) :=
  match SafeOpen p w with
  | (Some err, p1, w1) => Some (0, Some err, p1, w1)
  | (None, p1, w1) =>
      match client p1 with
      | None => None
      | Some k =>
          let '(output, err, k1, w2) :=
            HbaseClient_AtomicIncrement k TableName Row Column Value w1 in
          let p2 := set_client (Some k1) p1 in
          match err with
          | Some _ =>
              let '(_, p3, w3) := Close p2 w2 in Some (output, err, p3, w3)
          | None => Some (output, err, p2, w2)
          end
      end
  end.

Definition Get (p : ThriftConnection) (TableName Row Column : string)
    (Attributes : gmap string string) (w : Net)
  : option (option (list thrift_TCell) * option error * ThriftConnection * Net) :=
  match SafeOpen p w with
  | (Some err, p1, w1) => Some (None, Some err, p1, w1)
  | (None, p1, w1) =>
      match client p1 with
      | None => None
      | Some k =>
          let '(output, err, k1, w2) :=
            HbaseClient_Get k TableName Row Column Attributes w1 in
          let p2 := set_client (Some k1) p1 in
          match err with
          | Some _ =>
              let '(_, p3, w3) := Close p2 w2 in Some (output, err, p3, w3)
          | None => Some (output, err, p2, w2)
          end
      end
  end.

(** An operation with no result besides the error. *)
Definition Compact (p : ThriftConnection) (TableNameOrRegionName : string)
    (w : Net) : option (option error * ThriftConnection * Net) :=
  match SafeOpen p w with
  | (Some err, p1, w1) => Some (Some err, p1, w1)
  | (None, p1, w1) =>
      match client p1 with
      | None => None
      | Some k =>
          let '(err, k1, w2) := HbaseClient_Compact k TableNameOrRegionName w1 in
          let p2 := set_client (Some k1) p1 in
          match err with
          | Some _ => let '(_, p3, w3) := Close p2 w2 in Some (err, p3, w3)
          | None => Some (err, p2, w2)
          end
      end
  end.

(** *** The pattern of a forwarded operation

    [op] follows the pattern for the library call [call] and the zero
    value [zero] when: if [SafeOpen] fails, [op] returns [zero] and that
    error with the connection and the world as [SafeOpen] left them, so
    [call] plays no part; otherwise the connection holds a client, [call]
    is run on it, and either [call] reports an error, which [op] returns
    together with the output after closing the client, or it reports
    none, and [op] returns the output with the connection open. *)
Definition forwarding_pattern {A : Type} (zero : A)
    (call : thrift_HbaseClient -> Net -> A * option error * thrift_HbaseClient * Net)
    (op : ThriftConnection -> Net -> option (A * option error * ThriftConnection * Net))
  : Prop :=
  forall p w,
    match SafeOpen p w with
    | (Some err, p1, w1) => op p w = Some (zero, Some err, p1, w1)
    | (None, p1, w1) =>
        exists k, client p1 = Some k /\
          match call k w1 with
          | (output, Some err, k1, w2) =>
              op p w = Some (output, Some err, set_client None p1,
                             (HbaseClient_Close k1 w2).2)
              /\ IsClosed (set_client None p1) = true
          | (output, None, k1, w2) =>
              op p w = Some (output, None, set_client (Some k1) p1, w2)
              /\ IsOpen (set_client (Some k1) p1) = true
          end
    end.

End Wrapper.
End Thrift.

(** ** Batch command factories *)

(** [[]byte(s)] *)
Definition bytes_of_string (s : string) : bytes := list_byte_of_string s.

Definition cmd_bitop := "BITOP".
Definition cmd_bitop_and : bytes := bytes_of_string "AND".
Definition cmd_bitop_not : bytes := bytes_of_string "NOT".
Definition cmd_bitop_or : bytes := bytes_of_string "OR".
Definition cmd_getbit := "GETBIT".
Definition cmd_setbit := "SETBIT".
Definition cmd_bitcount := "BITCOUNT".
Definition cmd_expire := "EXPIRE".
Definition cmd_mget := "MGET".
Definition cmd_get := "GET".
Definition cmd_del := "DEL".
Definition cmd_set := "SET".

(** The elements of a slice, none for the nil slice. *)
Definition elements (args : option (list bytes)) : list bytes :=
  match args with
  | Some l => l
  | None => []
  end.

(** Modelled from the spec: the argument-writing helpers of
    [RedisBatchCommand] ([WriteArg], [WriteStringArg], [WriteStringArgs],
    [WriteIntArg], [WriteBoolArg]), whose file is not at hand.  The spec:
    string arguments are written as their raw bytes, integer arguments as
    the bytes of their base-10 decimal string, boolean arguments as "1"
    or "0"; each write adds one argument after those already there. *)
Definition WriteArg (arg : bytes) (c : RedisBatchCommand) : RedisBatchCommand :=
  set_Args (Some (elements (Args c) ++ [arg])%list) c.

Definition WriteStringArg (arg : string) (c : RedisBatchCommand) :=
  WriteArg (bytes_of_string arg) c.

Definition WriteStringArgs (args : list string) (c : RedisBatchCommand) :=
  fold_left (fun c arg => WriteStringArg arg c) args c.

Definition decimal (n : Z) : string := NilZero.string_of_int (Z.to_int n).

Definition WriteIntArg (arg : Z) (c : RedisBatchCommand) :=
  WriteArg (bytes_of_string (decimal arg)) c.

Definition WriteBoolArg (arg : bool) (c : RedisBatchCommand) :=
  WriteArg (bytes_of_string (if arg then "1" else "0")) c.

(** IEEE 754 binary64, as specified by [SpecFloat]. *)
Definition float64 := spec_float.
Definition prec := 53.
Definition emax := 1024.

(** [float64(n)] for an int64 [n]: rounded to nearest, ties to even. *)
Definition float64_of_int64 (n : Z) : float64 :=
  binary_normalize prec emax n 0 false.

(** [int64(f)]: the fraction is discarded (truncation towards zero).
    Go leaves the result open when [f] is not finite or out of range. *)
Definition int64_of_float64 (f : float64) : Z :=
  match f with
  | S754_finite s m e =>
      let a := Z.shiftl (Z.pos m) e in
      if s then - a else a
  | _ => 0
  end.

(** [time.Duration.Seconds] of Go's standard library:
    [sec := d / Second; nsec := d % Second;
     return float64(sec) + float64(nsec)/1e9]. *)
Definition Seconds (d : Duration) : float64 :=
  let sec := Z.quot d Second in
  let nsec := Z.rem d Second in
  SFadd prec emax (float64_of_int64 sec)
    (SFdiv prec emax (float64_of_int64 nsec) (float64_of_int64 1000000000)).

(** The same function as older releases of the library have it:
    [return float64(sec) + float64(nsec)*1e-9]. *)
Definition Seconds_legacy (d : Duration) : float64 :=
  let sec := Z.quot d Second in
  let nsec := Z.rem d Second in
  SFadd prec emax (float64_of_int64 sec)
    (SFmul prec emax (float64_of_int64 nsec)
       (SFdiv prec emax (float64_of_int64 1) (float64_of_int64 1000000000))).

Definition empty_command (cmd : string) : RedisBatchCommand :=
  {| Cmd := cmd; Args := Some []; Reply := None |}.

Definition MakeRedisBatchCommand (cmd : string) : RedisBatchCommand :=
  {| Cmd := cmd; Args := Some []; Reply := None |}.

Definition MakeRedisBatchCommandMget (keys : list string) : RedisBatchCommand :=
  WriteStringArgs keys (empty_command cmd_mget).

Definition MakeRedisBatchCommandExpireIn (key : string) (expire_in : Duration)
  : RedisBatchCommand :=
  let output := empty_command cmd_expire in
  let output := WriteStringArg key output in
  WriteIntArg (int64_of_float64 (Seconds expire_in)) output.

Definition MakeRedisBatchCommandGet (key : string) : RedisBatchCommand :=
  WriteStringArg key (empty_command cmd_get).

Definition MakeRedisBatchCommandSet (key : string) (value : bytes)
  : RedisBatchCommand :=
  let output := empty_command cmd_set in
  let output := WriteStringArg key output in
  WriteArg value output.

Definition MakeRedisBatchCommandDelete (keys : list string) : RedisBatchCommand :=
  WriteStringArgs keys (empty_command cmd_del).

Definition MakeRedisBatchCommandBitopNot (dest source : string)
  : RedisBatchCommand :=
  let output := empty_command cmd_bitop in
  let output := WriteArg cmd_bitop_not output in
  let output := WriteStringArg dest output in
  WriteStringArg source output.

Definition MakeRedisBatchCommandBitopAnd (dest : string) (sources : list string)
  : RedisBatchCommand :=
  let output := empty_command cmd_bitop in
  let output := WriteArg cmd_bitop_and output in
  let output := WriteStringArg dest output in
  WriteStringArgs sources output.

Definition MakeRedisBatchCommandBitopOr (dest : string) (sources : list string)
  : RedisBatchCommand :=
  let output := empty_command cmd_bitop in
  let output := WriteArg cmd_bitop_or output in
  let output := WriteStringArg dest output in
  WriteStringArgs sources output.

Definition MakeRedisBatchCommandBitCount (key : string) : RedisBatchCommand :=
  WriteStringArg key (empty_command cmd_bitcount).

Definition MakeRedisBatchCommandGetBit (key : string) (index : Z)
  : RedisBatchCommand :=
  let output := empty_command cmd_getbit in
  let output := WriteStringArg key output in
  WriteIntArg index output.

Definition MakeRedisBatchCommandSetBit (key : string) (index : Z) (state : bool)
  : RedisBatchCommand :=
  let output := empty_command cmd_setbit in
  let output := WriteStringArg key output in
  let output := WriteIntArg index output in
  WriteBoolArg state output.

(** What the second argument of EXPIRE would be with the sub-second
    remainder cut off: the decimal digits of [d / Second]. *)
Definition truncated_seconds (d : Duration) : bytes :=
  bytes_of_string (decimal (Z.quot d Second)).

(** ** The stop watch *)

(** The clock of package [time]: [Clock] is the state of the system
    clock at a call, [time_Time] a reading of it. *)
Class TimeLibrary := {
  Clock : Type;
  time_Time : Type;
  (** the zero value of [time.Time] *)
  Time_zero : time_Time;
  (** [t.IsZero()] *)
  Time_IsZero : time_Time -> bool;
  (** [time.Now()] *)
  time_Now : Clock -> time_Time;
  (** [time.Since(t)] *)
  time_Since : time_Time -> Clock -> Duration;
  Time_IsZero_zero : Time_IsZero Time_zero = true
}.

Module StopWatches.

(** What [Logger.Fine] is called with by [LogDuration]: the connection
    (printed with [%T]), the operation and the four numbers. *)
Record FineLine (C : Type) := mkFineLine {
  line_Connection : C;
  line_Operation : string;
  line_ns : Z;
  line_micro : Z;
  line_milli : Z;
  line_sec : Z
}.
Arguments mkFineLine {C}.
Arguments line_Connection {C}.
Arguments line_Operation {C}.
Arguments line_ns {C}.
Arguments line_micro {C}.
Arguments line_milli {C}.
Arguments line_sec {C}.

Section StopWatch.
Context `{TimeLibrary}.
(** The type of the values put in the [Connection interface{}] field. *)
Context {C : Type}.

(** The embedded [Logger] is left out of the record and taken to be
    there: the lines it is given are threaded through [LogDuration]. *)
Record StopWatch := mkStopWatch {
  Connection : C;
  Operation : string;
  Time : time_Time;
  Duration : Z
}.

Definition MakeStopWatch (connection : C) (operation : string) : StopWatch :=
  {| Connection := connection; Operation := operation;
     Time := Time_zero; Duration := 0 |}.

Definition Start (p : StopWatch) (now : Clock) : StopWatch :=
  {| Connection := Connection p; Operation := Operation p;
     Time := time_Now now; Duration := 0 |}.

Definition Stop (p : StopWatch) (now : Clock) : StopWatch :=
  if Time_IsZero (Time p) then p
  else {| Connection := Connection p; Operation := Operation p;
          Time := Time p; Duration := time_Since (Time p) now |}.

(** [ns / int64(unit)]: Go's integer division truncates. *)
Definition LogDuration (p : StopWatch) (log : list (FineLine C))
  : StopWatch * list (FineLine C) :=
  let ns := Duration p in
  if Z.ltb 0 ns then
    let micro := Z.quot ns Microsecond in
    let milli := Z.quot ns Millisecond in
    let sec := Z.quot ns Second in
    (p, log ++ [mkFineLine (Connection p) (Operation p) ns micro milli sec])%list
  else (p, log).

End StopWatch.
End StopWatches.

(** ** The memcached server process *)

(** Processes, ports and sleeping ([os/exec], [time]), and the parts of
    the package the server process uses that are declared outside the
    files at hand: [findPort] and the [Close] of a memcached
    connection. *)
Class ProcessLibrary := {
  Host : Type;
  log4go_Logger : Type;
  exec_Cmd : Type;
  (** [findPort()] *)
  findPort : Host -> Z * option error * Host;
  (** [exec.Command(name, arg...)] *)
  exec_Command : string -> list string -> exec_Cmd;
  (** [cmd.Start()] *)
  Cmd_Start : exec_Cmd -> Host -> option error * exec_Cmd * Host;
  (** [cmd.Process.Kill()] *)
  Process_Kill : exec_Cmd -> Host -> Host;
  (** [cmd.Wait()] *)
  Cmd_Wait : exec_Cmd -> Host -> Host;
  (** [time.Sleep(d)] *)
  time_Sleep : Duration -> Host -> Host
}.

Module Memcached.
Section Server.
Context `{ProcessLibrary}.

(** The fields of [MemcachedConnection] that the composite literal in
    [Connection] sets; its declaration is in a file that is not at
    hand. *)
Record MemcachedConnection := mkMemcachedConnection {
  Url : string;
  Logger : option log4go_Logger;
  Id : string
}.

(** [connection.Close()], whose body is not at hand: some effect on the
    host. *)
Context (MemcachedConnection_Close : MemcachedConnection -> Host -> Host).

Record MemcachedServerProcess := mkMemcachedServerProcess {
  port : Z;
  logger : option log4go_Logger;
  connection : option MemcachedConnection;
  cmd : option exec_Cmd
}.

Definition StartMemcachedServer (logger : option log4go_Logger) (w : Host)
  : option MemcachedServerProcess * option error * Host :=
  match logger with
  | None => (None, Some (errors_New "Nil logger"), w)
  | Some _ =>
      let '(port, err, w1) := findPort w in
      match err with
      | Some _ => (None, err, w1)
      | None =>
          let '(err, cmd, w2) :=
            Cmd_Start (exec_Command "memcached" ["-p"; decimal port]) w1 in
          match err with
          | Some _ => (None, err, w2)
          | None =>
              let w3 := time_Sleep (1 * Second) w2 in
              (Some {| port := port; logger := logger;
                       connection := None; cmd := Some cmd |}, None, w3)
          end
      end
  end.

Definition Url_ (p : MemcachedServerProcess) : string :=
  String.append "127.0.0.1:" (decimal (port p)).

Definition Close (p : MemcachedServerProcess) (w : Host)
  : option error * MemcachedServerProcess * Host :=
  let w1 :=
    match connection p with
    | Some c => MemcachedConnection_Close c w
    | None => w
    end in
  let w2 :=
    match cmd p with
    | Some c => Cmd_Wait c (Process_Kill c w1)
    | None => w1
    end in
  (None, {| port := 0; logger := logger p; connection := None; cmd := None |}, w2).

(** [None] is the panic "No memcached-server running". *)
Definition Connection (p : MemcachedServerProcess)
  : option (MemcachedConnection * MemcachedServerProcess) :=
  match cmd p with
  | None => None
  | Some _ =>
      match connection p with
      | Some c => Some (c, p)
      | None =>
          let c := {| Url := Url_ p; Logger := logger p; Id := "Test" |} in
          Some (c, {| port := port p; logger := logger p;
                      connection := Some c; cmd := cmd p |})
      end
  end.

End Server.
End Memcached.

(** ** Executable instances of the two libraries

    A pipelined client in front of a small key-value server, and an
    HBase client in front of a server that is up or down.  They serve to
    run the wrappers on concrete inputs. *)

Module Model.

Definition request := (string * list bytes)%type.

(** The network: the addresses nobody listens on, and the server's keys. *)
Record world := mkWorld {
  refused : list string;
  data : list (string * bytes)
}.

(** A client holds the requests appended and not yet answered. *)
Record pipeline := mkPipeline { pending : list request }.

Fixpoint find_key (k : string) (d : list (string * bytes)) : option bytes :=
  match d with
  | [] => None
  | (k', v) :: rest => if String.eqb k k' then Some v else find_key k rest
  end.

Definition serve (req : request) (d : list (string * bytes))
  : redis_Reply * list (string * bytes) :=
  match req with
  | ("SET", [k; v]) =>
      (StatusReply (bytes_of_string "OK"), (string_of_list_byte k, v) :: d)
  | ("GET", [k]) =>
      (match find_key (string_of_list_byte k) d with
       | Some v => BulkReply v
       | None => NilReply
       end, d)
  | ("ping", []) => (StatusReply (bytes_of_string "PONG"), d)
  | _ => (ErrorReply (errors_New "ERR unknown command"), d)
  end.

(** The answers of the server to a sequence of requests, in order. *)
Fixpoint answers (reqs : list request) (d : list (string * bytes))
  : list redis_Reply :=
  match reqs with
  | [] => []
  | req :: rest => fst (serve req d) :: answers rest (snd (serve req d))
  end.

Definition PipelineQueueEmpty := errors_New "pipeline queue empty".

Definition DialTimeout (network addr : string) (timeout : Duration) (w : world)
  : (pipeline + error) * world :=
  if existsb (String.eqb addr) (refused w)
  then (inr (errors_New "dial tcp: connection refused"), w)
  else (inl (mkPipeline []), w).

Definition GetReply (k : pipeline) (w : world)
  : redis_Reply * pipeline * world :=
  match pending k with
  | [] => (ErrorReply PipelineQueueEmpty, k, w)
  | req :: rest =>
      let '(reply, d) := serve req (data w) in
      (reply, mkPipeline rest, mkWorld (refused w) d)
  end.

#[export] Instance radix : RadixClient := {|
  World := world;
  redis_Client := pipeline;
  redis_DialTimeout := DialTimeout;
  Client_Close := fun k w =>
    (match pending k with
     | [] => None
     | _ => Some (errors_New "close: requests left in the pipeline")
     end, w);
  Client_Append := fun k cmd args w => (mkPipeline (pending k ++ [(cmd, args)]), w);
  Client_GetReply := GetReply;
  redis_AuthError := errors_New "authentication failed";
  redis_LoadingError := errors_New "server is busy loading dataset in memory";
  redis_ParseError := errors_New "parse error";
  redis_PipelineQueueEmptyError := PipelineQueueEmpty;
  ErrConnectionIsClosed := errors_New "connection is closed";
  Sprintf_v := fun c => Cmd c
|}.

Definition key := bytes_of_string "K".
Definition value := bytes_of_string "V".

(** Three commands in a store: SET K V, GET K and a command the server
    does not know. *)
Definition commands : store :=
  <[0%nat := MakeRedisBatchCommandSet "K" value]>
  (<[1%nat := MakeRedisBatchCommandGet "K"]>
  (<[2%nat := MakeRedisBatchCommand "FLUSHALL"]> ∅)).

Definition up : world := mkWorld [] [].
Definition down : world := mkWorld ["redis:6379"] [].

Definition closed : Redis.RedisConnection :=
  fst (Redis.makeLazyRedisConnection "redis:6379" "a" 0).

Definition opened : Redis.RedisConnection :=
  Redis.set_client (Some (mkPipeline [])) closed.

(** An HBase server that is up ([true]) or down ([false]); a client
    counts the calls it served. *)
#[export] Instance hbase : HbaseLibrary := {|
  Net := bool;
  thrift_HbaseClient := nat;
  thrift_TCell := bytes;
  HbaseClient_zero := 0%nat;
  HbaseClient_Open := fun k _ _ (w : bool) =>
    if w then (None, k, w) else (Some (errors_New "connection refused"), k, w);
  HbaseClient_Close := fun _ w => (None, w);
  HbaseClient_AtomicIncrement := fun k _ _ _ v (w : bool) =>
    if w then (v + 1, None, S k, w) else (0, Some (errors_New "broken pipe"), k, w);
  HbaseClient_Get := fun k _ _ _ _ (w : bool) =>
    if w then (Some [], None, S k, w) else (None, Some (errors_New "broken pipe"), k, w);
  HbaseClient_Compact := fun k _ (w : bool) =>
    if w then (None, S k, w) else (Some (errors_New "broken pipe"), k, w)
|}.

End Model.


(** Instances of the clock and of the host, to run the stop watch and
    the server process. *)
Module Bench.

(** Readings are nanoseconds; the zero time is 0. *)
#[export] Instance clock : TimeLibrary := {|
  Clock := Z;
  time_Time := Z;
  Time_zero := 0;
  Time_IsZero := fun t => Z.eqb t 0;
  time_Now := fun now => now;
  time_Since := fun t now => now - t;
  Time_IsZero_zero := eq_refl
|}.

(** The host: the next free port, if any, and the processes started. *)
Record host := mkHost {
  free_port : option Z;
  running : list (string * list string);
  slept : Z
}.

#[export] Instance machine : ProcessLibrary := {|
  Host := host;
  log4go_Logger := unit;
  exec_Cmd := (string * list string)%type;
  findPort := fun w =>
    match free_port w with
    | Some n => (n, None, w)
    | None => (0, Some (errors_New "no free port"), w)
    end;
  exec_Command := fun name args => (name, args);
  Cmd_Start := fun c w =>
    (None, c, mkHost (free_port w) (c :: running w) (slept w));
  Process_Kill := fun c w => mkHost (free_port w) [] (slept w);
  Cmd_Wait := fun c w => w;
  time_Sleep := fun d w => mkHost (free_port w) (running w) (slept w + d)
|}.

Definition idle : host := mkHost (Some 11211) [] 0.

End Bench.

(** * Properties *)

(** ** Lifecycle of the Redis connection *)

Section RedisLifecycle.
Context `{RadixClient}.
Implicit Types (p : Redis.RedisConnection) (w : World).

Lemma Redis_IsClosed_client p :
  Redis.IsClosed p = true <-> Redis.client p = None.
Proof. unfold Redis.IsClosed. destruct (Redis.client p); split; congruence. Qed.

Lemma Redis_IsOpen_client p :
  Redis.IsOpen p = true <-> exists k, Redis.client p = Some k.
Proof.
  unfold Redis.IsOpen. destruct (Redis.client p) as [k|]; split.
  - eauto.
  - reflexivity.
  - discriminate.
  - intros [k Hk]. discriminate.
Qed.

Lemma Redis_IsOpen_negb p : Redis.IsOpen p = negb (Redis.IsClosed p).
Proof. unfold Redis.IsOpen, Redis.IsClosed. now destruct (Redis.client p). Qed.

(** A successful [Open] leaves a client in place. *)
Lemma Redis_Open_ok p w p1 w1 :
  Redis.Open p w = (None, p1, w1) -> exists k, Redis.client p1 = Some k.
Proof.
  unfold Redis.Open.
  destruct (redis_DialTimeout _ _ _ _) as [[k|err] w'].
  - intros [= <- <-]. exists k. reflexivity.
  - discriminate.
Qed.

(** A failed [Open] leaves the client field as it was. *)
Lemma Redis_Open_failed p w err p1 w1 :
  Redis.Open p w = (Some err, p1, w1) -> Redis.client p1 = Redis.client p.
Proof.
  unfold Redis.Open.
  destruct (redis_DialTimeout _ _ _ _) as [[k|e] w'].
  - discriminate.
  - intros [= _ <- _]. now destruct (Redis.Timeout p).
Qed.

(** [Append] never dereferences a nil client. *)
Lemma Redis_Append_returns p cmd args w :
  exists p1 w1, Redis.Append p cmd args w = Some (p1, w1).
Proof.
  unfold Redis.Append, Redis.IsOpen, Redis.client_Append.
  destruct (Redis.client p) as [k|] eqn:Hk; simpl.
  - destruct (Client_Append k cmd args w) as [k1 w1]. eauto.
  - destruct (Redis.Open p w) as [[[err|] p1] w1] eqn:Ho.
    + eauto.
    + destruct (Redis_Open_ok _ _ _ _ Ho) as [k ->].
      destruct (Client_Append k cmd args w1) as [k1 w2]. eauto.
Qed.

End RedisLifecycle.

(** ** Replies of the Redis connection *)

Section RedisReplies.
Context `{RadixClient}.
Implicit Types (p : Redis.RedisConnection) (w : World).

Lemma Redis_GetReply_nil p w :
  Redis.client p = None ->
  Redis.GetReply p w = (ErrorReply ErrConnectionIsClosed, p, w).
Proof. intros Hk. unfold Redis.GetReply. now rewrite Hk. Qed.

Lemma Redis_Append_nil_failed p cmd args w err p1 w1 :
  Redis.client p = None ->
  Redis.Open p w = (Some err, p1, w1) ->
  Redis.Append p cmd args w = Some (p1, w1).
Proof.
  intros Hk Ho. unfold Redis.Append, Redis.IsOpen.
  rewrite Hk. simpl. now rewrite Ho.
Qed.

(** C6.  [GetReply] on a closed connection returns the error reply made
    from [ErrConnectionIsClosed]; no library call is made (the world is
    the one passed in) and the connection is returned as it was. *)
Theorem Redis_GetReply_closed p w :
  Redis.IsClosed p = true ->
  Redis.GetReply p w = (ErrorReply ErrConnectionIsClosed, p, w).
Proof.
  intros Hc. apply Redis_GetReply_nil. now apply Redis_IsClosed_client.
Qed.

(** C2.  Whenever [GetReply] returns an error reply, the reply is the one
    the library client produced (or the one synthesized for a closed
    connection), unchanged.  If its message is one of the four ignored
    ones, an open connection stays open, holding the client as the read
    left it, and nothing else is called.  For any other message the
    connection is closed when [GetReply] returns. *)
Theorem Redis_GetReply_error_reply p w reply p' w' err :
  Redis.GetReply p w = (reply, p', w') ->
  reply = ErrorReply err ->
  reply = match Redis.client p with
          | Some k => (Client_GetReply k w).1.1
          | None => ErrorReply ErrConnectionIsClosed
          end
  /\ (Redis.ignored (Error err) = true ->
      forall k, Redis.client p = Some k ->
      Redis.IsOpen p' = true
      /\ p' = Redis.set_client (Some (Client_GetReply k w).1.2) p
      /\ w' = (Client_GetReply k w).2)
  /\ (Redis.ignored (Error err) = false -> Redis.IsClosed p' = true).
Proof.
  unfold Redis.GetReply.
  destruct (Redis.client p) as [k|] eqn:Hk.
  - destruct (Client_GetReply k w) as [[r k1] w1] eqn:Hr. simpl.
    destruct r as [b|e|i| |b|l];
      try (intros [= <- <- <-] [=]).
    destruct (Redis.ignored (Error e)) eqn:Hi.
    + intros [= <- <- <-] [= <-]. rewrite Hi.
      split; [reflexivity|]. split; [|discriminate].
      intros _ k0 [= <-]. rewrite Hr. now simpl.
    + unfold Redis.Close. simpl.
      destruct (Client_Close k1 w1) as [e1 w2].
      intros [= <- <- <-] [= <-]. rewrite Hi.
      split; [reflexivity|]. split; [discriminate|]. reflexivity.
  - intros [= <- <- <-] Herr.
    split; [reflexivity|]. split.
    + intros _ k [=].
    + intros _. now apply Redis_IsClosed_client.
Qed.

(** C5.  [Append] on a closed connection whose [Open] fails: the call
    returns with the connection and the world as the failed [Open] left
    them (so the only library call made is the dial), the connection is
    still closed and a following [GetReply] has nothing but the
    closed-connection error to give.  [Append] has no error result. *)
Theorem Redis_Append_open_failed p cmd args w err p1 w1 :
  Redis.IsClosed p = true ->
  Redis.Open p w = (Some err, p1, w1) ->
  Redis.Append p cmd args w = Some (p1, w1)
  /\ Redis.IsClosed p1 = true
  /\ Redis.client p1 = None
  /\ Redis.Url p1 = Redis.Url p /\ Redis.Id p1 = Redis.Id p
  /\ w1 = (redis_DialTimeout "tcp" (Redis.Url p1) (Redis.Timeout p1) w).2
  /\ Redis.GetReply p1 w1 = (ErrorReply ErrConnectionIsClosed, p1, w1).
Proof.
  intros Hc Ho.
  assert (Hk : Redis.client p = None) by now apply Redis_IsClosed_client.
  assert (Hk1 : Redis.client p1 = None).
  { rewrite (Redis_Open_failed _ _ _ _ _ Ho). exact Hk. }
  assert (Hc1 : Redis.IsClosed p1 = true) by now apply Redis_IsClosed_client.
  split; [now apply Redis_Append_nil_failed with err|].
  split; [exact Hc1|]. split; [exact Hk1|].
  revert Ho. unfold Redis.Open.
  set (p0 := if Z.eqb 0 (Redis.Timeout p) then _ else p).
  assert (Hu : Redis.Url p0 = Redis.Url p /\ Redis.Id p0 = Redis.Id p).
  { subst p0. now destruct (Z.eqb 0 (Redis.Timeout p)). }
  destruct (redis_DialTimeout "tcp" (Redis.Url p0) (Redis.Timeout p0) w)
    as [[k|e] w0] eqn:Hd; [discriminate|].
  intros [= _ <- <-].
  destruct Hu as [Hu Hi]. rewrite Hd. simpl.
  repeat split; try assumption.
  now apply Redis_GetReply_nil.
Qed.

(** The aggressive Redis factory against an endpoint that cannot be
    dialled: no connection, and the error of the ping, which is the
    closed-connection error. *)
Lemma Redis_makeAgressive_unreachable url id timeout w err p1 w1 :
  Redis.Open (Redis.makeLazyRedisConnection url id timeout).1 w
    = (Some err, p1, w1) ->
  Redis.makeAgressiveRedisConnection url id timeout w
    = Some (None, Some ErrConnectionIsClosed, w1).
Proof.
  intros Ho.
  pose proof (Redis_Open_failed _ _ _ _ _ Ho) as Hk. simpl in Hk.
  unfold Redis.makeAgressiveRedisConnection, Redis.Ping, Redis.Cmd_.
  simpl in *.
  erewrite Redis_Append_nil_failed; [|reflexivity|exact Ho].
  rewrite (Redis_GetReply_nil _ _ Hk). simpl.
  unfold Redis.Close. now rewrite Hk.
Qed.

End RedisReplies.

(** ** Batches on the Redis connection *)

Section RedisBatch.
Context `{RadixClient}.
Implicit Types (p : Redis.RedisConnection) (w : World) (h : store).
Implicit Types (commands : list ptr) (rs : list redis_Reply).

Lemma allocated_cons h q commands :
  allocated h (q :: commands) ->
  is_Some (h !! q) /\ allocated h commands.
Proof.
  intros Ha. split.
  - apply Ha. left.
  - intros q' Hq'. apply Ha. now right.
Qed.

Lemma allocated_insert h q c commands :
  allocated h commands -> allocated (<[q := c]> h) commands.
Proof.
  intros Ha q' Hq'. destruct (decide (q = q')) as [->|Hne].
  - rewrite lookup_insert_eq. eauto.
  - rewrite lookup_insert_ne by assumption. now apply Ha.
Qed.

Lemma appendCommands_returns commands : forall p h w,
  allocated h commands ->
  exists p1 w1, Redis.appendCommands p commands h w = Some (p1, w1).
Proof.
  induction commands as [|q rest IH]; intros p h w Ha; simpl.
  - eauto.
  - apply allocated_cons in Ha as [[c Hc] Ha]. rewrite Hc.
    assert (exists p1 w1,
      match Args c with
      | Some args => Redis.Append p (Cmd c) args w
      | None => Redis.Append p (Cmd c) [] w
      end = Some (p1, w1)) as (p1 & w1 & ->).
    { destruct (Args c); apply Redis_Append_returns. }
    now apply IH.
Qed.

(** A closed connection stays closed under [GetReply]. *)
Lemma drain_nil n : forall p w,
  Redis.client p = None ->
  exists rs, Redis.drain n p w = (rs, p, w).
Proof.
  induction n as [|n IH]; intros p w Hk; simpl.
  - eauto.
  - rewrite (Redis_GetReply_nil _ _ Hk).
    destruct (IH p w Hk) as [rs ->]. eauto.
Qed.

Lemma drain_length n : forall p w rs p' w',
  Redis.drain n p w = (rs, p', w') -> length rs = n.
Proof.
  induction n as [|n IH]; intros p w rs p' w'; simpl.
  - now intros [= <- _ _].
  - destruct (Redis.GetReply p w) as [[r p1] w1].
    destruct (Redis.drain n p1 w1) as [[rs1 p2] w2] eqn:Hd.
    intros [= <- _ _]. simpl. f_equal. eapply IH, Hd.
Qed.

Lemma drain_open_before n p w rs p' w' :
  Redis.drain n p w = (rs, p', w') ->
  Redis.IsOpen p' = true -> Redis.IsClosed p = false.
Proof.
  intros Hd Ho. destruct (Redis.IsClosed p) eqn:Hc; [|reflexivity].
  apply Redis_IsClosed_client in Hc.
  destruct (drain_nil n p w Hc) as [rs0 Hd0].
  rewrite Hd0 in Hd. injection Hd as _ <- _.
  rewrite Redis_IsOpen_negb in Ho.
  apply Redis_IsClosed_client in Hc. rewrite Hc in Ho. discriminate.
Qed.

(** The second loop when the connection is found closed after the
    reply of the command at index [M], and not before. *)
Lemma getReplies_stops commands :
  forall M p h w command c rs pM wM r p' w',
  NoDup commands -> allocated h commands ->
  commands !! M = Some command -> h !! command = Some c ->
  Redis.drain M p w = (rs, pM, wM) ->
  (M <> 0%nat -> Redis.IsOpen pM = true) ->
  Redis.GetReply pM wM = (r, p', w') ->
  Redis.IsClosed p' = true ->
  exists h',
    Redis.getReplies p commands h w
    = Some (Some (errors_New (Redis.closed_message (set_Reply (Some r) c))),
            p', h', w')
    /\ h' !! command = Some (set_Reply (Some r) c)
    /\ (forall i q, (i < M)%nat -> commands !! i = Some q ->
          h' !! q = set_Reply (rs !! i) <$> h !! q)
    /\ (forall i q, (M < i)%nat -> commands !! i = Some q -> h' !! q = h !! q)
    /\ (forall q, q ∉ commands -> h' !! q = h !! q).
Proof.
  induction commands as [|q0 rest IH];
    intros M p h w command c rs pM wM r p' w' Hnd Ha HM Hc Hd Hopen Hg Hcl.
  - discriminate.
  - apply NoDup_cons in Hnd as [Hq0 Hnd].
    apply allocated_cons in Ha as [[c0 Hc0] Ha].
    destruct M as [|M]; simpl in HM, Hd |- *.
    + injection HM as ->. injection Hd as <- <- <-.
      rewrite Hg, Hc, Hcl.
      eexists. split; [reflexivity|].
      split; [apply lookup_insert_eq|].
      split; [intros i q Hi; lia|].
      split.
      * intros [|i] q Hi Hq; [lia|]. simpl in Hq.
        apply lookup_insert_ne. intros <-.
        apply Hq0. eapply list_elem_of_lookup_2, Hq.
      * intros q Hq. apply lookup_insert_ne. intros <-. apply Hq. left.
    + destruct (Redis.GetReply p w) as [[r0 p1] w1] eqn:Hg0.
      destruct (Redis.drain M p1 w1) as [[rs1 p2] w2] eqn:Hd1.
      injection Hd as <- <- <-.
      rewrite Hc0.
      rewrite (drain_open_before _ _ _ _ _ _ Hd1 (Hopen ltac:(lia))).
      assert (Hne : q0 <> command).
      { intros ->. apply Hq0. eapply list_elem_of_lookup_2, HM. }
      set (h1 := <[q0 := set_Reply (Some r0) c0]> h).
      assert (Hc1 : h1 !! command = Some c).
      { subst h1. now rewrite lookup_insert_ne. }
      destruct (IH M p1 h1 w1 command c rs1 p2 w2 r p' w' Hnd
                  (allocated_insert _ _ _ _ Ha) HM Hc1 Hd1)
        as (h' & Hret & Hcmd & Hlt & Hgt & Hout); try assumption.
      { intros HM0. apply Hopen. lia. }
      exists h'. split; [exact Hret|]. split; [exact Hcmd|].
      split; [|split].
      * intros [|i] q Hi Hq; simpl in Hq |- *.
        -- injection Hq as <-. rewrite (Hout _ Hq0).
           subst h1. now rewrite lookup_insert_eq, Hc0.
        -- rewrite (Hlt i q ltac:(lia) Hq). subst h1.
           rewrite lookup_insert_ne; [reflexivity|].
           intros <-. apply Hq0. eapply list_elem_of_lookup_2, Hq.
      * intros [|i] q Hi Hq; [lia|]. simpl in Hq.
        rewrite (Hgt i q ltac:(lia) Hq). subst h1.
        apply lookup_insert_ne.
        intros <-. apply Hq0. eapply list_elem_of_lookup_2, Hq.
      * intros q Hq. apply not_elem_of_cons in Hq as [Hq1 Hq2].
        rewrite (Hout _ Hq2). subst h1. now apply lookup_insert_ne.
Qed.

(** The second loop when the connection is open after every reply. *)
Lemma getReplies_completes commands :
  forall p h w rs pN wN,
  NoDup commands -> allocated h commands ->
  Redis.drain (length commands) p w = (rs, pN, wN) ->
  (commands <> [] -> Redis.IsOpen pN = true) ->
  exists h',
    Redis.getReplies p commands h w = Some (None, pN, h', wN)
    /\ (forall i q, commands !! i = Some q ->
          h' !! q = set_Reply (rs !! i) <$> h !! q)
    /\ (forall q, q ∉ commands -> h' !! q = h !! q).
Proof.
  induction commands as [|q0 rest IH];
    intros p h w rs pN wN Hnd Ha Hd Hopen; simpl in Hd |- *.
  - injection Hd as <- <- <-. exists h.
    split; [reflexivity|]. split; [intros i q [=]|reflexivity].
  - apply NoDup_cons in Hnd as [Hq0 Hnd].
    apply allocated_cons in Ha as [[c0 Hc0] Ha].
    destruct (Redis.GetReply p w) as [[r0 p1] w1] eqn:Hg0.
    destruct (Redis.drain (length rest) p1 w1) as [[rs1 p2] w2] eqn:Hd1.
    injection Hd as <- <- <-.
    rewrite Hc0.
    rewrite (drain_open_before _ _ _ _ _ _ Hd1 (Hopen ltac:(discriminate))).
    set (h1 := <[q0 := set_Reply (Some r0) c0]> h).
    destruct (IH p1 h1 w1 rs1 p2 w2 Hnd (allocated_insert _ _ _ _ Ha) Hd1)
      as (h' & Hret & Hin & Hout).
    { intros _. apply Hopen. discriminate. }
    exists h'. split; [exact Hret|]. split.
    + intros [|i] q Hq; simpl in Hq |- *.
      * injection Hq as <-. rewrite (Hout _ Hq0).
        subst h1. now rewrite lookup_insert_eq, Hc0.
      * rewrite (Hin i q Hq). subst h1.
        rewrite lookup_insert_ne; [reflexivity|].
        intros <-. apply Hq0. eapply list_elem_of_lookup_2, Hq.
    + intros q Hq. apply not_elem_of_cons in Hq as [Hq1 Hq2].
      rewrite (Hout _ Hq2). subst h1. now apply lookup_insert_ne.
Qed.

Lemma set_client_same p k : Redis.client p = Some k -> Redis.set_client (Some k) p = p.
Proof. destruct p as [u i t c]. simpl. now intros ->. Qed.

(** On an open connection, reading replies none of which is fatal is
    reading them from the library client. *)
Lemma drain_nonfatal n : forall p k w rs k' w',
  Redis.client p = Some k ->
  Redis.Client_GetReplies n k w = (rs, k', w') ->
  Forall (fun r => Redis.fatal r = false) rs ->
  Redis.drain n p w = (rs, Redis.set_client (Some k') p, w').
Proof.
  induction n as [|n IH]; intros p k w rs k' w' Hk; simpl.
  - intros [= <- <- <-] _. now rewrite set_client_same.
  - unfold Redis.GetReply. rewrite Hk.
    destruct (Client_GetReply k w) as [[r k1] w1].
    destruct (Redis.Client_GetReplies n k1 w1) as [[rs1 k2] w2] eqn:Hr.
    intros [= <- <- <-] Hf. apply Forall_cons in Hf as [Hr0 Hf].
    assert (Hstep :
      match r with
      | ErrorReply err =>
          if Redis.ignored (Error err)
          then (r, Redis.set_client (Some k1) p, w1)
          else let '(_, p2, w3) := Redis.Close (Redis.set_client (Some k1) p) w1
               in (r, p2, w3)
      | _ => (r, Redis.set_client (Some k1) p, w1)
      end = (r, Redis.set_client (Some k1) p, w1)).
    { destruct r as [b|e|i| |b|l]; try reflexivity.
      simpl in Hr0. apply negb_false_iff in Hr0. now rewrite Hr0. }
    rewrite Hstep.
    now rewrite (IH (Redis.set_client (Some k1) p) k1 w1 rs1 k2 w2 eq_refl Hr Hf).
Qed.

(** The first loop on an open connection appends the requests of the
    commands to the library client, in the order of the batch. *)
Lemma appendCommands_open commands : forall cs p k h w,
  Redis.client p = Some k ->
  Forall2 (fun q c => h !! q = Some c) commands cs ->
  Redis.appendCommands p commands h w
  = Some (Redis.set_client
            (Some (Redis.Client_Appends k (map Redis.request_of cs) w).1) p,
          (Redis.Client_Appends k (map Redis.request_of cs) w).2).
Proof.
  induction commands as [|q rest IH]; intros cs p k h w Hk Hcs.
  - apply Forall2_nil_inv_l in Hcs as ->. simpl.
    now rewrite set_client_same.
  - apply Forall2_cons_inv_l in Hcs as (c & cs' & Hc & Hcs & ->).
    simpl. rewrite Hc.
    assert (Happ :
      match Args c with
      | Some args => Redis.Append p (Cmd c) args w
      | None => Redis.Append p (Cmd c) [] w
      end
      = let '(k1, w1) :=
          Client_Append k (Cmd c)
            match Args c with Some args => args | None => [] end w in
        Some (Redis.set_client (Some k1) p, w1)).
    { unfold Redis.Append, Redis.IsOpen, Redis.client_Append. rewrite Hk.
      now destruct (Args c). }
    rewrite Happ.
    destruct (Client_Append k (Cmd c) _ w) as [k1 w1].
    now rewrite (IH cs' (Redis.set_client (Some k1) p) k1 h w1 eq_refl Hcs).
Qed.

Lemma BatchCommands_open_nonfatal p k commands cs h w k1 w1 rs kN wN :
  Redis.client p = Some k ->
  NoDup commands ->
  Forall2 (fun q c => h !! q = Some c) commands cs ->
  Redis.Client_Appends k (map Redis.request_of cs) w = (k1, w1) ->
  Redis.Client_GetReplies (length commands) k1 w1 = (rs, kN, wN) ->
  Forall (fun r => Redis.fatal r = false) rs ->
  exists h',
    Redis.BatchCommands p commands h w
    = Some (None, Redis.set_client (Some kN) p, h', wN)
    /\ (forall i q c, commands !! i = Some q -> h !! q = Some c ->
          exists r, rs !! i = Some r
                    /\ h' !! q = Some (set_Reply (Some r) c))
    /\ (forall q, q ∉ commands -> h' !! q = h !! q).
Proof.
  intros Hk Hnd Hcs Happ Hget Hnf.
  assert (Ha : allocated h commands).
  { intros q Hq. apply list_elem_of_lookup_1 in Hq as [i Hi].
    destruct (Forall2_lookup_l _ _ _ _ _ Hcs Hi) as (c & _ & Hc). eauto. }
  unfold Redis.BatchCommands.
  rewrite (appendCommands_open commands cs p k h w Hk Hcs), Happ. simpl.
  pose proof (drain_nonfatal _ (Redis.set_client (Some k1) p) k1 w1 rs kN wN
                eq_refl Hget Hnf) as Hd. simpl in Hd.
  destruct (getReplies_completes commands _ h w1 rs _ wN Hnd Ha Hd)
    as (h' & Hret & Hin & Hout); [reflexivity|].
  exists h'. split; [exact Hret|]. split; [|exact Hout].
  intros i q c Hi Hc.
  destruct (lookup_lt_is_Some_2 rs i) as [r Hr].
  { rewrite (drain_length _ _ _ _ _ _ Hd). eapply lookup_lt_Some, Hi. }
  exists r. split; [exact Hr|]. now rewrite (Hin i q Hi), Hr, Hc.
Qed.

(** C1.  A batch in which no pointer occurs twice and none
    is nil.  The first loop returns, leaving a connection [p1].  If the
    connection is closed after the reply of the command at index [M]
    (counting from 0) and was open after the replies before it, the call
    returns an error whose message names that command as it is stored,
    with the reply just read in its slot; every command before [M] has in
    its slot the reply read for it, in order; the commands after [M] are
    as they were, so no reply was assigned to them. *)
Theorem Redis_BatchCommands_closed_while_draining p commands h w :
  NoDup commands -> allocated h commands ->
  exists p1 w1,
    Redis.appendCommands p commands h w = Some (p1, w1)
    /\ forall M command c rs pM wM r p' w',
        commands !! M = Some command -> h !! command = Some c ->
        Redis.drain M p1 w1 = (rs, pM, wM) ->
        (M <> 0%nat -> Redis.IsOpen pM = true) ->
        Redis.GetReply pM wM = (r, p', w') ->
        Redis.IsClosed p' = true ->
        exists h',
          Redis.BatchCommands p commands h w
          = Some (Some (errors_New
                          (Redis.closed_message
                             {| Cmd := Cmd c; Args := Args c;
                                Reply := Some r |})),
                  p', h', w')
          /\ h' !! command
             = Some {| Cmd := Cmd c; Args := Args c; Reply := Some r |}
          /\ (forall i q, (i < M)%nat -> commands !! i = Some q ->
                exists ri ci,
                  rs !! i = Some ri /\ h !! q = Some ci
                  /\ h' !! q
                     = Some {| Cmd := Cmd ci; Args := Args ci;
                               Reply := Some ri |})
          /\ (forall i q, (M < i)%nat -> commands !! i = Some q ->
                h' !! q = h !! q).
Proof.
  intros Hnd Ha.
  destruct (appendCommands_returns commands p h w Ha) as (p1 & w1 & Happ).
  exists p1, w1. split; [exact Happ|].
  intros M command c rs pM wM r p' w' HM Hc Hd Hopen Hg Hcl.
  destruct (getReplies_stops commands M p1 h w1 command c rs pM wM r p' w'
              Hnd Ha HM Hc Hd Hopen Hg Hcl)
    as (h' & Hret & Hcmd & Hlt & Hgt & _).
  exists h'. unfold Redis.BatchCommands. rewrite Happ.
  split; [exact Hret|]. split; [exact Hcmd|]. split; [|exact Hgt].
  intros i q Hi Hq.
  destruct (lookup_lt_is_Some_2 rs i) as [ri Hri].
  { now rewrite (drain_length _ _ _ _ _ _ Hd). }
  destruct (Ha q) as [ci Hci]; [eapply list_elem_of_lookup_2, Hq|].
  exists ri, ci. split; [exact Hri|]. split; [exact Hci|].
  now rewrite (Hlt i q Hi Hq), Hri, Hci.
Qed.

Lemma responses_length {S : Type} (respond : string * list bytes -> S -> redis_Reply * S)
    reqs : forall s, length (Redis.responses respond reqs s) = length reqs.
Proof. induction reqs as [|req rest IH]; intros s; simpl; [reflexivity|]. now rewrite IH. Qed.





End RedisBatch.

(** ** The Thrift connection *)

Section ThriftForwarding.
Context `{HbaseLibrary}.
Implicit Types (p : Thrift.ThriftConnection) (w : Net).

Lemma Thrift_SafeOpen_ok p w p1 w1 :
  Thrift.SafeOpen p w = (None, p1, w1) -> exists k, Thrift.client p1 = Some k.
Proof.
  unfold Thrift.SafeOpen, Thrift.IsOpen, Thrift.Open.
  destruct (Thrift.client p) as [k|] eqn:Hk.
  - intros [= <- <-]. eauto.
  - destruct (HbaseClient_Open _ _ _ _) as [[[err|] k] w'].
    + discriminate.
    + intros [= <- <-]. exists k. reflexivity.
Qed.

Lemma Thrift_forwarded_pattern {A : Type} (zero : A) call :
  Thrift.forwarding_pattern zero call (Thrift.forwarded zero call).
Proof.
  intros p w. unfold Thrift.forwarded.
  destruct (Thrift.SafeOpen p w) as [[[err|] p1] w1] eqn:Hs.
  - reflexivity.
  - destruct (Thrift_SafeOpen_ok _ _ _ _ Hs) as [k Hk].
    exists k. split; [exact Hk|]. rewrite Hk.
    destruct (call k w1) as [[[output [err|]] k1] w2].
    + unfold Thrift.Close. simpl.
      destruct (HbaseClient_Close k1 w2) as [e w3]. now simpl.
    + now split.
Qed.

Lemma Thrift_AtomicIncrement_forwarded p TableName Row Column Value w :
  Thrift.AtomicIncrement p TableName Row Column Value w
  = Thrift.forwarded 0
      (fun k => HbaseClient_AtomicIncrement k TableName Row Column Value) p w.
Proof. reflexivity. Qed.

Lemma Thrift_Get_forwarded p TableName Row Column Attributes w :
  Thrift.Get p TableName Row Column Attributes w
  = Thrift.forwarded None
      (fun k => HbaseClient_Get k TableName Row Column Attributes) p w.
Proof. reflexivity. Qed.

(** An operation without output is the same body with nothing for
    output. *)
Lemma Thrift_Compact_forwarded p TableNameOrRegionName w :
  (fun '(err, p1, w1) => (tt, err, p1, w1))
    <$> Thrift.Compact p TableNameOrRegionName w
  = Thrift.forwarded tt
      (fun k w => let '(err, k1, w1) :=
                    HbaseClient_Compact k TableNameOrRegionName w in
                  (tt, err, k1, w1)) p w.
Proof.
  unfold Thrift.Compact, Thrift.forwarded.
  destruct (Thrift.SafeOpen p w) as [[[err|] p1] w1]; [reflexivity|].
  destruct (Thrift.client p1) as [k|]; [|reflexivity].
  destruct (HbaseClient_Compact k TableNameOrRegionName w1) as [[[e|] k1] w2];
    [|reflexivity].
  now destruct (Thrift.Close _ _) as [[e1 p3] w3].
Qed.

(** C7.  The shared body of the forwarded operations follows the
    pattern, whatever the library call and the zero value; so do
    [AtomicIncrement] and [Get] as they are written out, and [Compact],
    which has no output besides the error. *)
Theorem Thrift_forwarded_operations :
  (forall (A : Type) (zero : A) call,
      Thrift.forwarding_pattern zero call (Thrift.forwarded zero call))
  /\ (forall TableName Row Column Value,
        Thrift.forwarding_pattern 0
          (fun k => HbaseClient_AtomicIncrement k TableName Row Column Value)
          (fun p => Thrift.AtomicIncrement p TableName Row Column Value))
  /\ (forall TableName Row Column Attributes,
        Thrift.forwarding_pattern None
          (fun k => HbaseClient_Get k TableName Row Column Attributes)
          (fun p => Thrift.Get p TableName Row Column Attributes))
  /\ (forall TableNameOrRegionName,
        Thrift.forwarding_pattern tt
          (fun k w => let '(err, k1, w1) :=
                        HbaseClient_Compact k TableNameOrRegionName w in
                      (tt, err, k1, w1))
          (fun p w => (fun '(err, p1, w1) => (tt, err, p1, w1))
                        <$> Thrift.Compact p TableNameOrRegionName w)).
Proof.
  split; [|split; [|split]]; cycle 3.
  { intros TableNameOrRegionName p w. rewrite Thrift_Compact_forwarded.
    apply Thrift_forwarded_pattern. }
  - intros A zero call. apply Thrift_forwarded_pattern.
  - intros TableName Row Column Value.
    apply (Thrift_forwarded_pattern 0
             (fun k => HbaseClient_AtomicIncrement k TableName Row Column Value)).
  - intros TableName Row Column Attributes.
    apply (Thrift_forwarded_pattern None
             (fun k => HbaseClient_Get k TableName Row Column Attributes)).
Qed.

(** The aggressive Thrift factory pings with a stub, so it returns the
    lazily made connection and no error whatever the endpoint. *)
Lemma Thrift_makeAgressive_always url id timeout w :
  Thrift.makeAgressiveThriftConnection url id timeout w
  = (Some (Thrift.makeLazyThriftConnection url id timeout).1, None, w).
Proof. reflexivity. Qed.

End ThriftForwarding.

(** ** Both connection variants *)

Section Lifecycle.
Context `{RadixClient} `{HbaseLibrary}.

(** C8.  [IsOpen] and [IsClosed] are complements, in every state of
    either connection. *)
Theorem IsOpen_IsClosed_complement
    (p : Redis.RedisConnection) (q : Thrift.ThriftConnection) :
  Redis.IsOpen p = negb (Redis.IsClosed p)
  /\ Thrift.IsOpen q = negb (Thrift.IsClosed q).
Proof.
  split.
  - unfold Redis.IsOpen, Redis.IsClosed. now destruct (Redis.client p).
  - unfold Thrift.IsOpen, Thrift.IsClosed. now destruct (Thrift.client q).
Qed.

(** C10.  [Close] returns the connection without its client, hence
    closed, from any state of either connection.  When there was a
    client, the error returned and the world are those of the library's
    close, be the error nil or not; when there was none, no error. *)
Theorem Close_leaves_closed :
  (forall (p : Redis.RedisConnection) (w : World),
      exists err w',
        Redis.Close p w = (err, Redis.set_client None p, w')
        /\ Redis.IsClosed (Redis.set_client None p) = true
        /\ Redis.client (Redis.set_client None p) = None
        /\ (forall k, Redis.client p = Some k -> (err, w') = Client_Close k w)
        /\ (Redis.client p = None -> err = None /\ w' = w))
  /\ (forall (q : Thrift.ThriftConnection) (n : Net),
        exists err n',
          Thrift.Close q n = (err, Thrift.set_client None q, n')
          /\ Thrift.IsClosed (Thrift.set_client None q) = true
          /\ Thrift.client (Thrift.set_client None q) = None
          /\ (forall k, Thrift.client q = Some k ->
                (err, n') = HbaseClient_Close k n)
          /\ (Thrift.client q = None -> err = None /\ n' = n)).
Proof.
  split.
  - intros p w. unfold Redis.Close.
    destruct (Redis.client p) as [k|].
    + destruct (Client_Close k w) as [err w'] eqn:Hc. exists err, w'.
      repeat split; try reflexivity; try discriminate.
      intros k0 [= <-]. now rewrite Hc.
    + exists None, w. repeat split; try reflexivity. discriminate.
  - intros q n. unfold Thrift.Close.
    destruct (Thrift.client q) as [k|].
    + destruct (HbaseClient_Close k n) as [err n'] eqn:Hc. exists err, n'.
      repeat split; try reflexivity; try discriminate.
      intros k0 [= <-]. now rewrite Hc.
    + exists None, n. repeat split; try reflexivity. discriminate.
Qed.

End Lifecycle.

(** ** The wrappers at work on the executable instances *)

Section Runs.
Import Model.

Lemma NoDup_batch3 : NoDup [0%nat; 2%nat; 1%nat].
Proof. apply (bool_decide_unpack _). vm_compute. exact I. Qed.


Lemma allocated_batch3 : allocated commands [0%nat; 2%nat; 1%nat].
Proof.
  intros q Hq.
  repeat (apply elem_of_cons in Hq as [->|Hq]; [eexists; reflexivity|]).
  now apply elem_of_nil in Hq.
Qed.

(** On this client, reading as many replies as there are pending
    requests yields the server's answers to them, in order. *)
Lemma Model_GetReplies_answers reqs : forall w,
  Redis.Client_GetReplies (length reqs) (mkPipeline reqs) w
  = (answers reqs (data w), mkPipeline [],
     (Redis.Client_GetReplies (length reqs) (mkPipeline reqs) w).2).
Proof.
  induction reqs as [|req rest IH]; intros w.
  - reflexivity.
  - simpl. unfold GetReply. simpl.
    destruct (serve req (data w)) as [r d] eqn:Hs.
    rewrite (IH (mkWorld (refused w) d)). simpl. reflexivity.
Qed.

Lemma Model_Appends pend reqs : forall w,
  Redis.Client_Appends (mkPipeline pend) reqs w = (mkPipeline (pend ++ reqs), w).
Proof.
  revert pend. induction reqs as [|[cmd args] rest IH]; intros pend w; simpl.
  - now rewrite app_nil_r.
  - rewrite IH. now rewrite <- app_assoc.
Qed.

(** With this client, a batch on an open connection with nothing pending
    leaves in every command the server's answer to that command's own
    request, as long as no answer is fatal. *)
Lemma Model_BatchCommands_answers p batch cs h w :
  Redis.client p = Some (mkPipeline []) ->
  NoDup batch ->
  Forall2 (fun q c => h !! q = Some c) batch cs ->
  Forall (fun r => Redis.fatal r = false)
    (answers (map Redis.request_of cs) (data w)) ->
  exists p' h' w',
    Redis.BatchCommands p batch h w = Some (None, p', h', w')
    /\ forall i q c, batch !! i = Some q -> h !! q = Some c ->
        exists r, answers (map Redis.request_of cs) (data w) !! i = Some r
                  /\ h' !! q = Some (set_Reply (Some r) c).
Proof.
  intros Hk Hnd Hcs Hnf.
  pose proof (Model_Appends [] (map Redis.request_of cs) w) as Happ.
  simpl in Happ.
  pose proof (Model_GetReplies_answers (map Redis.request_of cs) w) as Hget.
  rewrite length_map, <- (Forall2_length _ _ _ Hcs) in Hget.
  destruct (BatchCommands_open_nonfatal p _ batch cs h w _ _ _ _ _
              Hk Hnd Hcs Happ Hget Hnf) as (h' & Hret & Hin & _).
  eauto.
Qed.

(** C6 at work: a lazily made connection, server down. *)
Lemma Redis_GetReply_closed_witness :
  Redis.IsClosed closed = true
  /\ Redis.GetReply closed down
     = (ErrorReply (errors_New "connection is closed"), closed, down).
Proof.
  split; [reflexivity|].
  apply (Redis_GetReply_closed (H := radix) closed down). reflexivity.
Defined.

(** C2 at work: an unknown command is answered by a fatal error, which
    closes the connection; reading from an empty pipeline is answered by
    an ignored error, which leaves it open. *)
Lemma Redis_GetReply_error_reply_witness :
  let p := Redis.set_client (H := radix)
             (Some (mkPipeline [("FLUSHALL", [])])) closed in
  (Redis.GetReply p up
   = (ErrorReply (errors_New "ERR unknown command"), closed, up)
   /\ Redis.IsClosed closed = true)
  /\ (Redis.GetReply opened up = (ErrorReply PipelineQueueEmpty, opened, up)
      /\ Redis.IsOpen opened = true).
Proof.
  intros p. split; (split; [reflexivity|]).
  - apply (Redis_GetReply_error_reply (H := radix) p up
             (ErrorReply (errors_New "ERR unknown command")) closed up
             (errors_New "ERR unknown command") eq_refl eq_refl).
    reflexivity.
  - apply (Redis_GetReply_error_reply (H := radix) opened up
             (ErrorReply PipelineQueueEmpty) opened up
             PipelineQueueEmpty eq_refl eq_refl)
      with (k := mkPipeline []); reflexivity.
Defined.

(** C5 at work: appending to a closed connection while the server is
    down. *)
Lemma Redis_Append_open_failed_witness :
  let p1 := Redis.set_Timeout (10 * Second) closed in
  Redis.Open closed down
  = (Some (errors_New "dial tcp: connection refused"), p1, down)
  /\ Redis.Append closed "GET" [key] down = Some (p1, down)
  /\ Redis.IsClosed p1 = true
  /\ Redis.GetReply p1 down
     = (ErrorReply (errors_New "connection is closed"), p1, down).
Proof.
  intros p1. split; [reflexivity|].
  destruct (Redis_Append_open_failed (H := radix) closed "GET" [key] down
              (errors_New "dial tcp: connection refused") p1 down
              eq_refl eq_refl)
    as (Ha & Hc & _ & _ & _ & _ & Hg).
  split; [exact Ha|]. split; [exact Hc|exact Hg].
Defined.

(** C1 at work: SET, an unknown command, GET.  The second reply is
    fatal: the call fails naming that command, SET holds its reply, the
    unknown command holds the error and GET holds none. *)
Lemma Redis_BatchCommands_closed_while_draining_witness :
  exists h',
    Redis.BatchCommands opened [0%nat; 2%nat; 1%nat] commands up
    = Some (Some (errors_New
              "[BatchCommands] Connection closed while getting reply for cmd = FLUSHALL"),
            closed, h', mkWorld [] [("K", value)])
    /\ Reply <$> h' !! 0%nat = Some (Some (StatusReply (bytes_of_string "OK")))
    /\ Reply <$> h' !! 2%nat
       = Some (Some (ErrorReply (errors_New "ERR unknown command")))
    /\ Reply <$> h' !! 1%nat = Some None.
Proof.
  destruct (Redis_BatchCommands_closed_while_draining (H := radix)
              opened [0%nat; 2%nat; 1%nat] commands up
              NoDup_batch3 allocated_batch3)
    as (p1 & w1 & Happ & Hstop).
  vm_compute in Happ. injection Happ as <- <-.
  destruct (Hstop 1%nat 2%nat (MakeRedisBatchCommand "FLUSHALL")
              [StatusReply (bytes_of_string "OK")]
              (Redis.set_client (H := radix)
                 (Some (mkPipeline [("FLUSHALL", []);
                                    ("GET", [bytes_of_string "K"])])) closed)
              (mkWorld [] [("K", value)])
              (ErrorReply (errors_New "ERR unknown command"))
              closed (mkWorld [] [("K", value)])
              eq_refl eq_refl eq_refl (fun _ => eq_refl) eq_refl eq_refl)
    as (h' & Hret & Hcmd & Hbefore & Hafter).
  exists h'. split; [exact Hret|]. split; [|split].
  - destruct (Hbefore 0%nat 0%nat (Nat.lt_0_succ 0) eq_refl)
      as (ri & ci & Hri & Hci & Hq).
    injection Hri as <-. now rewrite Hq.
  - now rewrite Hcmd.
  - now rewrite (Hafter 2%nat 1%nat (Nat.lt_succ_diag_r 1) eq_refl).
Defined.

(** C1 does not extend to a batch that names a command twice.  GET K,
    an unknown command, and the same GET K again:
    the second reply is fatal and the call fails; the command at the
    third place, after the failure, had no reply before the call and
    holds one after it, assigned through its first occurrence. *)
Lemma Redis_BatchCommands_closed_shared_command :
  exists e p' h' w',
    Redis.BatchCommands opened [1%nat; 2%nat; 1%nat] commands up
    = Some (Some e, p', h', w')
    /\ Redis.IsClosed p' = true
    /\ Reply <$> h' !! 2%nat
       = Some (Some (ErrorReply (errors_New "ERR unknown command")))
    /\ [1%nat; 2%nat; 1%nat] !! 2%nat = Some 1%nat
    /\ Reply <$> commands !! 1%nat = Some None
    /\ Reply <$> h' !! 1%nat = Some (Some NilReply).
Proof. do 4 eexists. repeat split. Qed.




(** A batch that names the same command twice, GET, SET, and the same
    GET again: the pointer is shared, so the reply read last (the value)
    replaces the one read first (nil). *)
Lemma Redis_BatchCommands_shared_command :
  exists p' h' w',
    Redis.BatchCommands opened [1%nat; 0%nat; 1%nat] commands up
    = Some (None, p', h', w')
    /\ h' !! 1%nat
       = Some (set_Reply (Some (BulkReply value)) (MakeRedisBatchCommandGet "K")).
Proof. do 3 eexists. split; reflexivity. Qed.

(** The aggressive Redis factory with the server down: no connection
    and the error of the ping. *)
Lemma Redis_makeAgressive_down :
  Redis.makeAgressiveRedisConnection (H := radix) "redis:6379" "a" 0 down
  = Some (None, Some (errors_New "connection is closed"), down).
Proof.
  apply (Redis_makeAgressive_unreachable (H := radix) "redis:6379" "a" 0 down
           (errors_New "dial tcp: connection refused")
           (Redis.set_Timeout (10 * Second) closed) down).
  reflexivity.
Qed.

(** C4, where the Thrift factory departs from it.  The HBase server is
    down, so that [Open] on the lazily made connection fails; the
    aggressive factory nevertheless returns that connection, closed, and
    a nil error: [Ping] is a stub that returns nil without a call. *)
Theorem Thrift_makeAgressive_unreachable :
  let p := (Thrift.makeLazyThriftConnection (H := hbase) "hbase:9090" "a" 0).1 in
  (Thrift.Open p false).1.1 = Some (errors_New "connection refused")
  /\ Thrift.makeAgressiveThriftConnection "hbase:9090" "a" 0 false
     = (Some p, None, false)
  /\ Thrift.IsClosed p = true.
Proof. repeat split. Qed.

(** [Close] hands back the error of the library's close and still drops
    the client. *)
Lemma Redis_Close_error :
  Redis.Close (Redis.set_client (H := radix)
                 (Some (mkPipeline [("GET", [key])])) closed) up
  = (Some (errors_New "close: requests left in the pipeline"), closed, up).
Proof. reflexivity. Qed.

(** A forwarded operation with the server down, then up. *)
Lemma Thrift_Get_runs :
  let p := (Thrift.makeLazyThriftConnection (H := hbase) "hbase:9090" "a" 0).1 in
  Thrift.Get p "t" "r" "c" ∅ false
  = Some (None, Some (errors_New "connection refused"),
          Thrift.set_Timeout (10 * Second) p, false)
  /\ Thrift.Get p "t" "r" "c" ∅ true
     = Some (Some [], None,
             Thrift.set_client (Some 1%nat) (Thrift.set_Timeout (10 * Second) p),
             true).
Proof. split; reflexivity. Qed.

End Runs.

(** ** The EXPIRE factory *)

(** The command [ExpireIn] builds: the key, then the decimal digits of
    [int64(expire_in.Seconds())]. *)
Lemma ExpireIn_shape key expire_in :
  MakeRedisBatchCommandExpireIn key expire_in
  = {| Cmd := "EXPIRE";
       Args := Some [bytes_of_string key;
                     bytes_of_string
                       (decimal (int64_of_float64 (Seconds expire_in)))];
       Reply := None |}.
Proof. reflexivity. Qed.

(** 90500 milliseconds are encoded as "90". *)
Lemma ExpireIn_90500ms key :
  Args (MakeRedisBatchCommandExpireIn key (90500 * Millisecond))
  = Some [bytes_of_string key; bytes_of_string "90"].
Proof.
  assert (E : decimal (int64_of_float64 (Seconds (90500 * Millisecond))) = "90")
    by (vm_compute; reflexivity).
  rewrite ExpireIn_shape. cbn [Args]. now rewrite E.
Qed.

(** Whatever the milliseconds past 90 seconds, they are cut off: none
    of the thousand remainders rounds up. *)
Lemma ExpireIn_truncates_milliseconds (ms : Z) :
  0 <= ms < 1000 ->
  int64_of_float64 (Seconds ((90000 + ms) * Millisecond)) = 90.
Proof.
  intros Hms.
  assert (Hall :
    forallb (fun n : nat =>
               Z.eqb (int64_of_float64
                        (Seconds ((90000 + Z.of_nat n) * Millisecond))) 90)
            (seq 0 1000) = true) by (vm_compute; reflexivity).
  rewrite forallb_forall in Hall.
  specialize (Hall (Z.to_nat ms)).
  rewrite Z2Nat.id in Hall by lia.
  apply Z.eqb_eq, Hall, in_seq. lia.
Qed.

(** C9, where the code departs from it.  For 16777216.999999999 seconds
    the sum [float64(sec) + float64(nsec)/1e9] is not representable and
    rounds to 16777217.0, so the argument written is "16777217" and not
    the truncated "16777216".  The older body of [Seconds] gives the same
    float. *)
Theorem ExpireIn_rounds_up :
  int64_of_float64 (Seconds 16777216999999999) = 16777217
  /\ Z.quot 16777216999999999 Second = 16777216
  /\ Args (MakeRedisBatchCommandExpireIn "key" 16777216999999999)
     = Some [bytes_of_string "key"; bytes_of_string "16777217"]
  /\ truncated_seconds 16777216999999999 = bytes_of_string "16777216"
  /\ Seconds_legacy 16777216999999999 = Seconds 16777216999999999.
Proof. vm_compute. repeat split. Qed.

(** * Further properties *)

(** ** More on the Redis connection *)

Section RedisMore.
Context `{RadixClient}.
Implicit Types (p : Redis.RedisConnection) (w : World).

(** X1.  [Open] makes one library call, the dial, with the timeout it
    leaves in the connection, which is never zero: a zero timeout
    becomes ten seconds, any other is kept.  When it returns nil the
    connection holds the client dialled; when it returns an error the
    client field is as before.  A client held before is not closed. *)
Theorem Redis_Open_outcome p w err p' w' :
  Redis.Open p w = (err, p', w') ->
  Redis.Url p' = Redis.Url p /\ Redis.Id p' = Redis.Id p
  /\ Redis.Timeout p'
     = (if Z.eqb 0 (Redis.Timeout p) then 10 * Second else Redis.Timeout p)
  /\ Redis.Timeout p' <> 0
  /\ w' = (redis_DialTimeout "tcp" (Redis.Url p') (Redis.Timeout p') w).2
  /\ (err = None ->
      exists k, Redis.client p' = Some k
        /\ (redis_DialTimeout "tcp" (Redis.Url p') (Redis.Timeout p') w).1
           = inl k)
  /\ (forall e, err = Some e ->
      Redis.client p' = Redis.client p
      /\ (redis_DialTimeout "tcp" (Redis.Url p') (Redis.Timeout p') w).1
         = inr e).
Proof.
  unfold Redis.Open.
  set (p0 := if Z.eqb 0 (Redis.Timeout p) then _ else p).
  assert (Hp0 : Redis.Url p0 = Redis.Url p /\ Redis.Id p0 = Redis.Id p
                /\ Redis.Timeout p0
                   = (if Z.eqb 0 (Redis.Timeout p) then 10 * Second
                      else Redis.Timeout p)
                /\ Redis.Timeout p0 <> 0
                /\ Redis.client p0 = Redis.client p).
  { subst p0. destruct (Z.eqb_spec 0 (Redis.Timeout p)) as [E|E]; simpl.
    - repeat split; discriminate.
    - repeat split. congruence. }
  destruct Hp0 as (Hu & Hi & Ht & Hz & Hk).
  destruct (redis_DialTimeout "tcp" (Redis.Url p0) (Redis.Timeout p0) w)
    as [[k|e] w1] eqn:Hd.
  - intros [= <- <- <-]. simpl. rewrite Hd. simpl.
    do 5 (split; [first [assumption | reflexivity]|]).
    split; [intros _; exists k; auto | discriminate].
  - intros [= <- <- <-]. rewrite Hd. simpl.
    do 5 (split; [first [assumption | reflexivity]|]).
    split; [discriminate|]. intros e0 [= <-]. auto.
Qed.

(** A clone is a closed connection with the url, id and timeout of the
    original; it does not hold the original's client, so a reply asked
    of it is the closed-connection error.  Cloning a clone gives the
    same clone. *)
Lemma Redis_Clone_closed p w :
  Redis.IsClosed (Redis.Clone p) = true
  /\ Redis.Url (Redis.Clone p) = Redis.Url p
  /\ Redis.Id (Redis.Clone p) = Redis.Id p
  /\ Redis.Timeout (Redis.Clone p) = Redis.Timeout p
  /\ Redis.Clone (Redis.Clone p) = Redis.Clone p
  /\ Redis.GetReply (Redis.Clone p) w
     = (ErrorReply ErrConnectionIsClosed, Redis.Clone p, w).
Proof. repeat split. Qed.

(** [Open] looks at the url and the timeout only. *)
Lemma Redis_Open_same_endpoint p q w :
  Redis.Url q = Redis.Url p -> Redis.Timeout q = Redis.Timeout p ->
  (Redis.Open q w).1.1 = (Redis.Open p w).1.1
  /\ (Redis.Open q w).2 = (Redis.Open p w).2
  /\ Redis.Timeout (Redis.Open q w).1.2 = Redis.Timeout (Redis.Open p w).1.2
  /\ ((Redis.Open p w).1.1 = None ->
      Redis.client (Redis.Open q w).1.2 = Redis.client (Redis.Open p w).1.2)
  /\ ((Redis.Open p w).1.1 <> None ->
      Redis.client (Redis.Open q w).1.2 = Redis.client q).
Proof.
  intros Hu Ht. unfold Redis.Open. rewrite Ht.
  set (p0 := if Z.eqb 0 (Redis.Timeout p) then Redis.set_Timeout _ p else p).
  set (q0 := if Z.eqb 0 (Redis.Timeout p) then Redis.set_Timeout _ q else q).
  assert (Hpq : Redis.Url q0 = Redis.Url p0
                /\ Redis.Timeout q0 = Redis.Timeout p0
                /\ Redis.client q0 = Redis.client q).
  { subst p0 q0. destruct (Z.eqb 0 (Redis.Timeout p)); simpl; auto. }
  destruct Hpq as (Hu0 & Ht0 & Hk0). rewrite Hu0, Ht0.
  destruct (redis_DialTimeout "tcp" (Redis.Url p0) (Redis.Timeout p0) w)
    as [[k|e] w1]; simpl.
  - do 3 (split; [first [reflexivity | assumption]|]).
    split; [reflexivity|]. intros Hc. now contradiction Hc.
  - do 3 (split; [first [reflexivity | assumption]|]).
    split; [discriminate|]. intros _. exact Hk0.
Qed.

(** X2.  A clone is closed whatever the original holds, and opening it
    is opening the original: the same dial, hence the same error, the
    same world and, on success, the same client.  When the dial fails
    the clone stays closed, also when the original holds a client. *)
Theorem Redis_Clone_Open p w :
  Redis.IsClosed (Redis.Clone p) = true
  /\ (Redis.Open (Redis.Clone p) w).1.1 = (Redis.Open p w).1.1
  /\ (Redis.Open (Redis.Clone p) w).2 = (Redis.Open p w).2
  /\ Redis.Timeout (Redis.Open (Redis.Clone p) w).1.2
     = Redis.Timeout (Redis.Open p w).1.2
  /\ ((Redis.Open p w).1.1 = None ->
      Redis.client (Redis.Open (Redis.Clone p) w).1.2
      = Redis.client (Redis.Open p w).1.2)
  /\ ((Redis.Open p w).1.1 <> None ->
      Redis.client (Redis.Open (Redis.Clone p) w).1.2 = None).
Proof.
  split; [reflexivity|].
  exact (Redis_Open_same_endpoint p (Redis.Clone p) w eq_refl eq_refl).
Qed.

(** X3.  [Client] on an open connection hands out the client held,
    with no library call.  In general it returns a client exactly when it
    returns no error, and then the connection is open and holds that
    client; when it returns an error the connection is closed. *)
Theorem Redis_Client_outcome p w :
  exists k err p' w',
    Redis.Client p w = (k, err, p', w')
    /\ (Redis.IsOpen p = true -> (k, err, p', w') = (Redis.client p, None, p, w))
    /\ (err = None -> Redis.IsOpen p' = true /\ k = Redis.client p')
    /\ (err <> None -> Redis.IsClosed p' = true /\ k = None).
Proof.
  unfold Redis.Client, Redis.IsOpen.
  destruct (Redis.client p) as [k|] eqn:Hk.
  - exists (Some k), None, p, w. rewrite <- Hk.
    repeat split; try congruence.
    unfold Redis.IsOpen. now rewrite Hk.
  - destruct (Redis.Open p w) as [[[e|] p1] w1] eqn:Ho.
    + exists None, (Some e), p1, w1.
      split; [reflexivity|]. split; [discriminate|]. split; [discriminate|].
      intros _. split; [|reflexivity].
      apply Redis_IsClosed_client.
      now rewrite (Redis_Open_failed _ _ _ _ _ Ho).
    + exists (Redis.client p1), None, p1, w1.
      split; [reflexivity|]. split; [discriminate|]. split; [|congruence].
      intros _. split; [|reflexivity].
      destruct (Redis_Open_ok _ _ _ _ Ho) as [k Hk1].
      apply Redis_IsOpen_client. eauto.
Qed.

(** X4.  Whenever [Append] returns: if the connection is open
    afterwards, the command was appended, by one library call, either to
    the client held before (and then nothing was dialled) or to the
    client a successful [Open] had just put in place.  If it is closed
    afterwards, the connection was closed before, [Open] failed and
    nothing else was done. *)
Theorem Redis_Append_outcome p cmd args w p' w' :
  Redis.Append p cmd args w = Some (p', w') ->
  match Redis.client p' with
  | Some k' =>
      exists k w0,
        Client_Append k cmd args w0 = (k', w')
        /\ ((Redis.client p = Some k /\ w0 = w
             /\ p' = Redis.set_client (Some k') p)
            \/ (Redis.client p = None
                /\ exists p0, Redis.Open p w = (None, p0, w0)
                              /\ Redis.client p0 = Some k
                              /\ p' = Redis.set_client (Some k') p0))
  | None =>
      Redis.client p = None
      /\ exists e, Redis.Open p w = (Some e, p', w')
  end.
Proof.
  unfold Redis.Append, Redis.IsOpen, Redis.client_Append.
  destruct (Redis.client p) as [k|] eqn:Hk; simpl.
  - destruct (Client_Append k cmd args w) as [k1 w1] eqn:Ha.
    intros [= <- <-]. simpl.
    exists k, w. split; [exact Ha|]. left. auto.
  - destruct (Redis.Open p w) as [[[e|] p1] w1] eqn:Ho.
    + intros [= <- <-].
      rewrite (Redis_Open_failed _ _ _ _ _ Ho), Hk. eauto.
    + destruct (Redis_Open_ok _ _ _ _ Ho) as [k Hk1]. rewrite Hk1.
      destruct (Client_Append k cmd args w1) as [k2 w2] eqn:Ha.
      intros [= <- <-]. simpl.
      exists k, w1. split; [exact Ha|]. right. split; [reflexivity|].
      exists p1. auto.
Qed.

(** A reply that is no error reply was read from the client of an open
    connection, which is open afterwards. *)
Lemma Redis_GetReply_not_error p w r p' w' :
  Redis.GetReply p w = (r, p', w') ->
  Err r = None ->
  exists k k1,
    Redis.client p = Some k
    /\ Client_GetReply k w = (r, k1, w')
    /\ p' = Redis.set_client (Some k1) p.
Proof.
  unfold Redis.GetReply.
  destruct (Redis.client p) as [k|] eqn:Hk.
  - destruct (Client_GetReply k w) as [[r0 k1] w1] eqn:Hr.
    destruct r0 as [b|e|i| |b|l];
      try (intros [= <- <- <-] _; exists k, k1; auto).
    destruct (Redis.ignored (Error e)).
    + intros [= <- <- <-] [=].
    + destruct (Redis.Close _ w1) as [[e1 p2] w2]. intros [= <- <- <-] [=].
  - intros [= <- <- <-] [=].
Qed.

(** X5.  A reply of [GetReply] that is no error reply is the reply the
    library client read, on a connection that was open and is open
    afterwards, holding the client as the read left it. *)
Theorem Redis_GetReply_reply_open p w r p' w' :
  Redis.GetReply p w = (r, p', w') ->
  Err r = None ->
  Redis.IsOpen p = true /\ Redis.IsOpen p' = true
  /\ exists k k1,
      Redis.client p = Some k
      /\ Client_GetReply k w = (r, k1, w')
      /\ p' = Redis.set_client (Some k1) p.
Proof.
  intros Hg He.
  destruct (Redis_GetReply_not_error p w r p' w' Hg He) as (k & k1 & Hk & Hr & ->).
  split; [apply Redis_IsOpen_client; eauto|].
  split; [reflexivity|]. eauto.
Qed.

(** X6.  [GetReply] never reopens: on a closed connection any number of
    calls in a row all return the closed-connection error and leave the
    connection and the world as they were. *)
Theorem Redis_GetReply_never_reopens n p w :
  Redis.IsClosed p = true ->
  Redis.drain n p w = (replicate n (ErrorReply ErrConnectionIsClosed), p, w).
Proof.
  intros Hc. apply Redis_IsClosed_client in Hc.
  induction n as [|n IH]; simpl.
  - reflexivity.
  - now rewrite (Redis_GetReply_nil _ _ Hc), IH.
Qed.

Lemma Redis_Cmd_not_error p cmd args w r p' w' :
  Redis.Cmd_ p cmd args w = Some (r, p', w') ->
  Err r = None -> Redis.IsOpen p' = true.
Proof.
  unfold Redis.Cmd_.
  destruct (Redis.Append p cmd args w) as [[p1 w1]|]; [|discriminate].
  intros [= Hg] He.
  destruct (Redis_GetReply_not_error _ _ _ _ _ Hg He) as (k & k1 & _ & _ & ->).
  reflexivity.
Qed.

(** X7.  Whenever [Cmd] returns, a reply that is no error reply comes
    with the connection open; so if [Cmd] leaves the connection closed,
    the reply it returns is an error reply. *)
Theorem Redis_Cmd_reply_open p cmd args w r p' w' :
  Redis.Cmd_ p cmd args w = Some (r, p', w') ->
  (Err r = None -> Redis.IsOpen p' = true)
  /\ (Redis.IsClosed p' = true -> exists e, r = ErrorReply e).
Proof.
  intros Hc.
  pose proof (Redis_Cmd_not_error p cmd args w r p' w' Hc) as Ho.
  split; [exact Ho|].
  intros Hcl. destruct r as [b|e|i| |b|l]; eauto;
    specialize (Ho eq_refl); rewrite Redis_IsOpen_negb, Hcl in Ho; discriminate.
Qed.

(** X8.  Whenever [Ping] returns, a nil error means the connection is
    open afterwards; so if [Ping] leaves the connection closed, it
    returns an error. *)
Theorem Redis_Ping_healthy p w err p' w' :
  Redis.Ping p w = Some (err, p', w') ->
  (err = None -> Redis.IsOpen p' = true)
  /\ (Redis.IsClosed p' = true -> err <> None).
Proof.
  unfold Redis.Ping.
  destruct (Redis.Cmd_ p "ping" [] w) as [[[r p1] w1]|] eqn:Hc; [|discriminate].
  intros [= <- <- <-].
  pose proof (Redis_Cmd_not_error p "ping" [] w r p1 w1 Hc) as Ho.
  split; [exact Ho|].
  intros Hcl He. specialize (Ho He).
  rewrite Redis_IsOpen_negb, Hcl in Ho. discriminate.
Qed.

End RedisMore.

(** ** More on batches *)

Section RedisBatchMore.
Context `{RadixClient}.
Implicit Types (p : Redis.RedisConnection) (w : World).
Implicit Types (h : store) (commands : list ptr).

Lemma Redis_Open_fields p w err p' w' :
  Redis.Open p w = (err, p', w') ->
  Redis.Url p' = Redis.Url p /\ Redis.Id p' = Redis.Id p
  /\ Redis.Timeout p' <> 0.
Proof.
  unfold Redis.Open.
  set (p0 := if Z.eqb 0 (Redis.Timeout p) then _ else p).
  assert (Hp0 : Redis.Url p0 = Redis.Url p /\ Redis.Id p0 = Redis.Id p
                /\ Redis.Timeout p0 <> 0).
  { subst p0. destruct (Z.eqb_spec 0 (Redis.Timeout p)) as [E|E]; simpl.
    - repeat split; discriminate.
    - repeat split. congruence. }
  destruct (redis_DialTimeout _ _ _ _) as [[k|e] w1];
    intros [= <- <- <-]; exact Hp0.
Qed.

Lemma Redis_Append_fields p cmd args w p' w' :
  Redis.Append p cmd args w = Some (p', w') ->
  Redis.Url p' = Redis.Url p /\ Redis.Id p' = Redis.Id p
  /\ (Redis.client p = None -> Redis.Timeout p' <> 0).
Proof.
  unfold Redis.Append, Redis.IsOpen, Redis.client_Append.
  destruct (Redis.client p) as [k|] eqn:Hk; simpl.
  - destruct (Client_Append k cmd args w) as [k1 w1].
    intros [= <- <-]. repeat split. discriminate.
  - destruct (Redis.Open p w) as [[[e|] p1] w1] eqn:Ho;
      destruct (Redis_Open_fields _ _ _ _ _ Ho) as (Hu & Hi & Ht).
    + intros [= <- <-]. auto.
    + destruct (Redis.client p1) as [k|]; [|discriminate].
      destruct (Client_Append k cmd args w1) as [k1 w2].
      intros [= <- <-]. auto.
Qed.

(** [GetReply] keeps url, id and timeout, and leaves the connection
    closed only along with an error reply. *)
Lemma Redis_GetReply_fields p w r p' w' :
  Redis.GetReply p w = (r, p', w') ->
  Redis.Url p' = Redis.Url p /\ Redis.Id p' = Redis.Id p
  /\ Redis.Timeout p' = Redis.Timeout p
  /\ (Redis.IsClosed p' = true -> exists e, r = ErrorReply e).
Proof.
  unfold Redis.GetReply.
  destruct (Redis.client p) as [k|] eqn:Hk.
  - destruct (Client_GetReply k w) as [[r0 k1] w1].
    destruct r0 as [b|e|i| |b|l];
      try (intros [= <- <- <-]; repeat split; discriminate).
    destruct (Redis.ignored (Error e)).
    + intros [= <- <- <-]. repeat split. eauto.
    + unfold Redis.Close. simpl. destruct (Client_Close k1 w1) as [e1 w2].
      intros [= <- <- <-]. repeat split. eauto.
  - intros [= <- <- <-]. repeat split. eauto.
Qed.

Lemma appendCommands_fields commands : forall p h w p' w',
  Redis.appendCommands p commands h w = Some (p', w') ->
  Redis.Url p' = Redis.Url p /\ Redis.Id p' = Redis.Id p
  /\ allocated h commands.
Proof.
  induction commands as [|q rest IH]; intros p h w p' w'; simpl.
  - intros [= <- <-]. repeat split. intros q Hq. now apply elem_of_nil in Hq.
  - destruct (h !! q) as [c|] eqn:Hc; [|discriminate].
    destruct (match Args c with
              | Some args => Redis.Append p (Cmd c) args w
              | None => Redis.Append p (Cmd c) [] w
              end) as [[p1 w1]|] eqn:Ha; [|discriminate].
    intros Hrest. destruct (IH _ _ _ _ _ Hrest) as (Hu & Hi & Hall).
    assert (Hf : Redis.Url p1 = Redis.Url p /\ Redis.Id p1 = Redis.Id p).
    { destruct (Args c);
        destruct (Redis_Append_fields _ _ _ _ _ _ Ha) as (? & ? & _); auto. }
    destruct Hf as [Hu1 Hi1].
    split; [congruence|]. split; [congruence|].
    intros q' Hq'. apply elem_of_cons in Hq' as [->|Hq'].
    + rewrite Hc. eauto.
    + now apply Hall.
Qed.

(** What the second loop keeps and how it can end. *)
Lemma getReplies_invariant commands : forall p h w err p' h' w',
  Redis.getReplies p commands h w = Some (err, p', h', w') ->
  (forall q, set_Reply None <$> h' !! q = set_Reply None <$> h !! q)
  /\ (forall q, q ∉ commands -> h' !! q = h !! q)
  /\ (Redis.Url p' = Redis.Url p /\ Redis.Id p' = Redis.Id p
      /\ Redis.Timeout p' = Redis.Timeout p)
  /\ (err = None -> commands <> [] -> Redis.IsOpen p' = true)
  /\ (forall e, err = Some e ->
        Redis.IsClosed p' = true
        /\ exists q c r,
             q ∈ commands /\ h' !! q = Some c
             /\ Reply c = Some (ErrorReply r)
             /\ e = errors_New (Redis.closed_message c)).
Proof.
  induction commands as [|q0 rest IH]; intros p h w err p' h' w'; simpl.
  - intros [= <- <- <- <-].
    repeat split; try reflexivity; try congruence; discriminate.
  - destruct (Redis.GetReply p w) as [[r0 p1] w1] eqn:Hg.
    destruct (Redis_GetReply_fields _ _ _ _ _ Hg) as (Hu & Hi & Ht & Herr).
    destruct (h !! q0) as [c0|] eqn:Hc0; [|discriminate].
    assert (Hsame : forall q,
      set_Reply None <$> <[q0 := set_Reply (Some r0) c0]> h !! q
      = set_Reply None <$> h !! q).
    { intros q. destruct (decide (q0 = q)) as [->|Hne].
      - now rewrite lookup_insert_eq, Hc0.
      - now rewrite lookup_insert_ne. }
    destruct (Redis.IsClosed p1) eqn:Hcl.
    + intros [= <- <- <- <-].
      split; [exact Hsame|].
      split. { intros q Hq. apply lookup_insert_ne. intros <-. apply Hq. left. }
      split; [auto|]. split; [discriminate|].
      intros e [= <-]. split; [exact Hcl|].
      destruct (Herr eq_refl) as [e0 ->].
      exists q0, (set_Reply (Some (ErrorReply e0)) c0), e0.
      split; [left|]. split; [apply lookup_insert_eq|]. auto.
    + intros Hrest.
      destruct (IH _ _ _ _ _ _ _ Hrest) as (Hs & Hout & (Hu' & Hi' & Ht') & Hok & Hbad).
      split. { intros q. now rewrite Hs, Hsame. }
      split.
      { intros q Hq. apply not_elem_of_cons in Hq as [Hq1 Hq2].
        rewrite (Hout _ Hq2). now apply lookup_insert_ne. }
      split; [repeat split; congruence|].
      split.
      { intros He _. destruct rest as [|q1 rest'].
        - simpl in Hrest. injection Hrest as _ <- _ _.
          now rewrite Redis_IsOpen_negb, Hcl.
        - now apply Hok. }
      intros e He. destruct (Hbad e He) as (Hclosed & q & c & r & Hq & Hc & Hr & Hm).
      split; [exact Hclosed|]. exists q, c, r.
      split; [now right|]. auto.
Qed.

Lemma getReplies_returns commands : forall p h w,
  allocated h commands ->
  exists res, Redis.getReplies p commands h w = Some res.
Proof.
  induction commands as [|q0 rest IH]; intros p h w Ha; simpl.
  - eauto.
  - apply allocated_cons in Ha as [[c0 Hc0] Ha].
    destruct (Redis.GetReply p w) as [[r0 p1] w1]. rewrite Hc0.
    destruct (Redis.IsClosed p1); [eauto|].
    apply IH. now apply allocated_insert.
Qed.

(** X9.  [BatchCommands] changes nothing of the commands but their reply
    slots: after the call every pointer points to a command with the
    keyword and arguments it had, pointers outside the batch point to
    what they did, and the connection has its url and id. *)
Theorem Redis_BatchCommands_only_replies p commands h w err p' h' w' :
  Redis.BatchCommands p commands h w = Some (err, p', h', w') ->
  (forall q, set_Reply None <$> h' !! q = set_Reply None <$> h !! q)
  /\ (forall q, q ∉ commands -> h' !! q = h !! q)
  /\ Redis.Url p' = Redis.Url p /\ Redis.Id p' = Redis.Id p.
Proof.
  unfold Redis.BatchCommands.
  destruct (Redis.appendCommands p commands h w) as [[p1 w1]|] eqn:Ha;
    [|discriminate].
  intros Hg.
  destruct (appendCommands_fields _ _ _ _ _ _ Ha) as (Hu & Hi & _).
  destruct (getReplies_invariant _ _ _ _ _ _ _ _ Hg)
    as (Hs & Hout & (Hu' & Hi' & _) & _).
  repeat split; try assumption; congruence.
Qed.

(** X10.  How [BatchCommands] can end.  With a nil error the batch was
    empty or the connection is open.  With an error the connection is
    closed, and the error names a command of the batch that holds an
    error reply. *)
Theorem Redis_BatchCommands_error_iff_closed p commands h w err p' h' w' :
  Redis.BatchCommands p commands h w = Some (err, p', h', w') ->
  (err = None <-> commands = [] \/ Redis.IsOpen p' = true)
  /\ (forall e, err = Some e ->
        Redis.IsClosed p' = true
        /\ exists q c r,
             q ∈ commands /\ h' !! q = Some c
             /\ Reply c = Some (ErrorReply r)
             /\ e = errors_New (Redis.closed_message c)).
Proof.
  unfold Redis.BatchCommands.
  destruct (Redis.appendCommands p commands h w) as [[p1 w1]|] eqn:Ha;
    [|discriminate].
  intros Hg.
  destruct (getReplies_invariant _ _ _ _ _ _ _ _ Hg)
    as (_ & _ & _ & Hok & Hbad).
  split; [|exact Hbad]. split.
  - intros He. destruct commands as [|q rest]; [now left|].
    right. now apply Hok.
  - intros [->|Ho].
    + simpl in Ha. injection Ha as <- <-. simpl in Hg. congruence.
    + destruct err as [e|]; [|reflexivity].
      destruct (Hbad e eq_refl) as [Hcl _].
      rewrite Redis_IsOpen_negb, Hcl in Ho. discriminate.
Qed.

(** X11.  A batch that holds a nil pointer, at whatever place, makes
    [BatchCommands] panic: the call does not return. *)
Theorem Redis_BatchCommands_nil_pointer p commands h w q :
  q ∈ commands -> h !! q = None ->
  Redis.BatchCommands p commands h w = None.
Proof.
  intros Hq Hnil. unfold Redis.BatchCommands.
  destruct (Redis.appendCommands p commands h w) as [[p1 w1]|] eqn:Ha;
    [|reflexivity].
  destruct (appendCommands_fields _ _ _ _ _ _ Ha) as (_ & _ & Hall).
  destruct (Hall q Hq) as [c Hc]. congruence.
Qed.


End RedisBatchMore.

(** ** Unreachable and reachable servers *)

Section RedisReach.
Context `{RadixClient}.
Implicit Types (p : Redis.RedisConnection) (w : World).
Implicit Types (h : store) (commands : list ptr).

(** X13.  Whenever the aggressive factory returns, it returns either a
    connection and a nil error or no connection and an error, never
    both and never neither.  A connection it returns is open and has the
    url and the id asked for, and a timeout that is not zero. *)
Theorem Redis_makeAgressive_outcome url id timeout w pc err w' :
  Redis.makeAgressiveRedisConnection url id timeout w = Some (pc, err, w') ->
  (exists p, pc = Some p /\ err = None
             /\ Redis.IsOpen p = true
             /\ Redis.Url p = url /\ Redis.Id p = id
             /\ Redis.Timeout p <> 0)
  \/ (pc = None /\ exists e, err = Some e).
Proof.
  unfold Redis.makeAgressiveRedisConnection, Redis.Ping, Redis.Cmd_.
  simpl.
  set (p0 := {| Redis.Url := url; Redis.Id := id;
                Redis.Timeout := timeout; Redis.client := None |}).
  destruct (Redis.Append p0 "ping" [] w) as [[p1 w1]|] eqn:Ha; [|discriminate].
  destruct (Redis_Append_fields _ _ _ _ _ _ Ha) as (Hu & Hi & Ht).
  specialize (Ht eq_refl).
  destruct (Redis.GetReply p1 w1) as [[r p2] w2] eqn:Hg.
  destruct (Redis_GetReply_fields _ _ _ _ _ Hg) as (Hu2 & Hi2 & Ht2 & _).
  destruct (Err r) as [e|] eqn:He.
  - destruct (Redis.Close p2 w2) as [[e1 p3] w3].
    intros [= <- <- <-]. right. eauto.
  - intros [= <- <- <-]. left.
    exists p2. split; [reflexivity|]. split; [reflexivity|].
    destruct (Redis_GetReply_not_error _ _ _ _ _ Hg He) as (k & k1 & _ & _ & Hp2).
    split; [now rewrite Hp2|].
    subst p0. simpl in *. repeat split; congruence.
Qed.




End RedisReach.

(** ** More on the Thrift connection *)

Section ThriftMore.
Context `{HbaseLibrary}.
Implicit Types (p : Thrift.ThriftConnection) (w : Net).

Lemma Thrift_IsOpen_negb p : Thrift.IsOpen p = negb (Thrift.IsClosed p).
Proof. unfold Thrift.IsOpen, Thrift.IsClosed. now destruct (Thrift.client p). Qed.

Lemma Thrift_Open_failed p w e p1 w1 :
  Thrift.Open p w = (Some e, p1, w1) ->
  Thrift.client p1 = Thrift.client p
  /\ Thrift.Url p1 = Thrift.Url p /\ Thrift.Id p1 = Thrift.Id p.
Proof.
  unfold Thrift.Open.
  destruct (HbaseClient_Open _ _ _ _) as [[[e0|] k] w'].
  - intros [= _ <- _]. now destruct (Thrift.Timeout p).
  - discriminate.
Qed.

(** X15.  [SafeOpen] on an open connection does nothing and returns
    nil.  On any connection it returns nil exactly when the connection
    is open afterwards; url and id are kept. *)
Theorem Thrift_SafeOpen_outcome p w :
  exists err p' w',
    Thrift.SafeOpen p w = (err, p', w')
    /\ (Thrift.IsOpen p = true -> (err, p', w') = (None, p, w))
    /\ (err = None <-> Thrift.IsOpen p' = true)
    /\ Thrift.Url p' = Thrift.Url p /\ Thrift.Id p' = Thrift.Id p.
Proof.
  unfold Thrift.SafeOpen.
  destruct (Thrift.IsOpen p) eqn:Hop.
  - exists None, p, w. repeat split; auto.
  - destruct (Thrift.Open p w) as [[[e|] p1] w1] eqn:Ho.
    + destruct (Thrift_Open_failed _ _ _ _ _ Ho) as (Hk & Hu & Hi).
      exists (Some e), p1, w1. split; [reflexivity|].
      split; [discriminate|]. split; [|auto].
      split; [discriminate|].
      unfold Thrift.IsOpen in *. rewrite Hk, Hop. discriminate.
    + exists None, p1, w1. split; [reflexivity|].
      split; [discriminate|].
      revert Ho. unfold Thrift.Open.
      destruct (HbaseClient_Open _ _ _ _) as [[[e0|] k] w']; [discriminate|].
      intros [= <- <-]. simpl.
      repeat split; now destruct (Thrift.Timeout p).
Qed.

Lemma Thrift_forwarded_outcome {A : Type} (zero : A) call p w :
  exists output err p' w',
    Thrift.forwarded zero call p w = Some (output, err, p', w')
    /\ (err = None <-> Thrift.IsOpen p' = true)
    /\ (forall k, Thrift.client p = Some k ->
          (output, err) = (call k w).1.1
          /\ (err = None -> (Thrift.client p', w') = (Some (call k w).1.2, (call k w).2))).
Proof.
  pose proof (Thrift_forwarded_pattern zero call p w) as Hpat.
  unfold Thrift.SafeOpen in Hpat.
  destruct (Thrift.IsOpen p) eqn:Hop.
  - destruct Hpat as (k & Hk & Hcall).
    destruct (call k w) as [[[output [e|]] k1] w2] eqn:Hc;
      destruct Hcall as [Hret Hst]; rewrite Hret.
    + do 4 eexists. split; [reflexivity|]. split.
      * split; [discriminate|]. rewrite Thrift_IsOpen_negb, Hst. discriminate.
      * intros k0 Hk0. rewrite Hk0 in Hk. injection Hk as ->. rewrite Hc.
        split; [reflexivity|discriminate].
    + do 4 eexists. split; [reflexivity|]. split.
      * split; auto.
      * intros k0 Hk0. rewrite Hk0 in Hk. injection Hk as ->. rewrite Hc.
        split; [reflexivity|]. reflexivity.
  - assert (Hnone : Thrift.client p = None).
    { unfold Thrift.IsOpen in Hop. now destruct (Thrift.client p). }
    destruct (Thrift.Open p w) as [[[e|] p1] w1] eqn:Ho.
    + rewrite Hpat. do 4 eexists. split; [reflexivity|]. split.
      * split; [discriminate|].
        destruct (Thrift_Open_failed _ _ _ _ _ Ho) as (Hk & _).
        unfold Thrift.IsOpen. rewrite Hk, Hnone. discriminate.
      * intros k Hk. congruence.
    + destruct Hpat as (k & Hk & Hcall).
      destruct (call k w1) as [[[output [e|]] k1] w2];
        destruct Hcall as [Hret Hst]; rewrite Hret;
        do 4 eexists; (split; [reflexivity|]); split;
        try (intros k0 Hk0; congruence).
      * split; [discriminate|]. rewrite Thrift_IsOpen_negb, Hst. discriminate.
      * split; auto.
Qed.

(** X16.  Whenever a forwarded operation returns, its error is nil
    exactly when the connection is open afterwards.  On a connection
    that was open the output and the error are those of the library call
    on the client held, with no dial before it.  This holds for the
    shared body, hence for [AtomicIncrement] and [Get]. *)
Theorem Thrift_forwarded_error_iff_closed :
  (forall (A : Type) (zero : A) call p w output err p' w',
      Thrift.forwarded zero call p w = Some (output, err, p', w') ->
      (err = None <-> Thrift.IsOpen p' = true)
      /\ (forall k, Thrift.client p = Some k ->
            (output, err) = (call k w).1.1
            /\ (err = None ->
                (Thrift.client p', w') = (Some (call k w).1.2, (call k w).2))))
  /\ (forall p TableName Row Column Value w output err p' w',
        Thrift.AtomicIncrement p TableName Row Column Value w
        = Some (output, err, p', w') ->
        (err = None <-> Thrift.IsOpen p' = true))
  /\ (forall p TableName Row Column Attributes w output err p' w',
        Thrift.Get p TableName Row Column Attributes w
        = Some (output, err, p', w') ->
        (err = None <-> Thrift.IsOpen p' = true)).
Proof.
  assert (Hgen : forall (A : Type) (zero : A) call p w output err p' w',
      Thrift.forwarded zero call p w = Some (output, err, p', w') ->
      (err = None <-> Thrift.IsOpen p' = true)
      /\ (forall k, Thrift.client p = Some k ->
            (output, err) = (call k w).1.1
            /\ (err = None ->
                (Thrift.client p', w') = (Some (call k w).1.2, (call k w).2)))).
  { intros A zero call p w output err p' w' Hf.
    destruct (Thrift_forwarded_outcome zero call p w)
      as (o & e & p0 & w0 & Hr & Hiff & Hk).
    rewrite Hr in Hf. injection Hf as <- <- <- <-. auto. }
  split; [exact Hgen|]. split.
  - intros p TableName Row Column Value w output err p' w' Hf.
    rewrite Thrift_AtomicIncrement_forwarded in Hf.
    exact (proj1 (Hgen _ _ _ _ _ _ _ _ _ Hf)).
  - intros p TableName Row Column Attributes w output err p' w' Hf.
    rewrite Thrift_Get_forwarded in Hf.
    exact (proj1 (Hgen _ _ _ _ _ _ _ _ _ Hf)).
Qed.

(** X17.  After a forwarded operation has returned an error, the next
    one starts by opening the connection anew: it fails with the error
    of [Open] and the zero value if that fails, and runs the library call
    on the fresh client otherwise. *)
Theorem Thrift_forwarded_after_error {A B : Type} (zero : A) call (zero' : B) call'
    p w output e p' w' :
  Thrift.forwarded zero call p w = Some (output, Some e, p', w') ->
  Thrift.IsClosed p' = true
  /\ match Thrift.Open p' w' with
     | (Some e1, p1, w1) =>
         Thrift.forwarded zero' call' p' w' = Some (zero', Some e1, p1, w1)
     | (None, p1, w1) =>
         exists k, Thrift.client p1 = Some k
           /\ Thrift.forwarded zero' call' p' w'
              = Thrift.forwarded zero' call' p1 w1
           /\ Thrift.SafeOpen p1 w1 = (None, p1, w1)
     end.
Proof.
  intros Hf.
  destruct (Thrift_forwarded_outcome zero call p w)
    as (o & e0 & p0 & w0 & Hr & Hiff & _).
  rewrite Hr in Hf. injection Hf as -> -> -> ->.
  assert (Hcl : Thrift.IsClosed p' = true).
  { destruct (Thrift.IsClosed p') eqn:Hc; [reflexivity|].
    assert (Ho : Thrift.IsOpen p' = true) by now rewrite Thrift_IsOpen_negb, Hc.
    apply Hiff in Ho. discriminate. }
  split; [exact Hcl|].
  assert (Hop : Thrift.IsOpen p' = false) by now rewrite Thrift_IsOpen_negb, Hcl.
  destruct (Thrift.Open p' w') as [[[e1|] p1] w1] eqn:Ho.
  - unfold Thrift.forwarded, Thrift.SafeOpen. now rewrite Hop, Ho.
  - assert (Hs : Thrift.SafeOpen p' w' = (None, p1, w1)).
    { unfold Thrift.SafeOpen. now rewrite Hop. }
    destruct (Thrift_SafeOpen_ok _ _ _ _ Hs) as [k Hk].
    exists k. split; [exact Hk|].
    assert (Hs1 : Thrift.SafeOpen p1 w1 = (None, p1, w1)).
    { unfold Thrift.SafeOpen, Thrift.IsOpen. now rewrite Hk. }
    split; [|exact Hs1].
    unfold Thrift.forwarded. now rewrite Hs, Hs1.
Qed.

End ThriftMore.

(** ** The factories with a variable number of keys *)

Lemma WriteStringArgs_Args keys : forall c,
  Args c <> None ->
  WriteStringArgs keys c
  = set_Args (Some (elements (Args c) ++ map bytes_of_string keys)%list) c.
Proof.
  unfold WriteStringArgs.
  induction keys as [|key rest IH]; intros c Hc; simpl.
  - destruct c as [cmd [args|] reply]; [|now contradiction Hc].
    unfold set_Args. simpl. now rewrite app_nil_r.
  - rewrite IH by discriminate.
    unfold WriteStringArg, WriteArg, set_Args. simpl.
    now rewrite <- app_assoc.
Qed.

(** X18.  [Mget] and [Delete] write the keys as the arguments, one
    argument per key in the order given; no key, no argument.  The reply
    slot is nil. *)
Theorem MakeRedisBatchCommand_keys (keys : list string) :
  MakeRedisBatchCommandMget keys
  = {| Cmd := "MGET"; Args := Some (map bytes_of_string keys); Reply := None |}
  /\ MakeRedisBatchCommandDelete keys
     = {| Cmd := "DEL"; Args := Some (map bytes_of_string keys); Reply := None |}
  /\ length (elements (Args (MakeRedisBatchCommandMget keys))) = length keys
  /\ forall i, elements (Args (MakeRedisBatchCommandMget keys)) !! i
               = bytes_of_string <$> keys !! i.
Proof.
  assert (Hm : MakeRedisBatchCommandMget keys
    = {| Cmd := "MGET"; Args := Some (map bytes_of_string keys); Reply := None |}).
  { unfold MakeRedisBatchCommandMget.
    now rewrite WriteStringArgs_Args by discriminate. }
  split; [exact Hm|]. split.
  { unfold MakeRedisBatchCommandDelete.
    now rewrite WriteStringArgs_Args by discriminate. }
  rewrite Hm. simpl. split.
  - apply length_map.
  - intros i. apply list_lookup_fmap.
Qed.

(** X19.  The BITOP factories write the operation first, then the
    destination, then the sources in the order given: two arguments more
    than there are sources, and exactly three for NOT. *)
Theorem MakeRedisBatchCommand_bitop (dest source : string) (sources : list string) :
  MakeRedisBatchCommandBitopAnd dest sources
  = {| Cmd := "BITOP";
       Args := Some (bytes_of_string "AND" :: bytes_of_string dest
                       :: map bytes_of_string sources);
       Reply := None |}
  /\ MakeRedisBatchCommandBitopOr dest sources
     = {| Cmd := "BITOP";
          Args := Some (bytes_of_string "OR" :: bytes_of_string dest
                          :: map bytes_of_string sources);
          Reply := None |}
  /\ MakeRedisBatchCommandBitopNot dest source
     = {| Cmd := "BITOP";
          Args := Some [bytes_of_string "NOT"; bytes_of_string dest;
                        bytes_of_string source];
          Reply := None |}
  /\ length (elements (Args (MakeRedisBatchCommandBitopAnd dest sources)))
     = (2 + length sources)%nat
  /\ length (elements (Args (MakeRedisBatchCommandBitopOr dest sources)))
     = (2 + length sources)%nat.
Proof.
  assert (Ha : MakeRedisBatchCommandBitopAnd dest sources
    = {| Cmd := "BITOP";
         Args := Some (bytes_of_string "AND" :: bytes_of_string dest
                         :: map bytes_of_string sources);
         Reply := None |}).
  { unfold MakeRedisBatchCommandBitopAnd.
    now rewrite WriteStringArgs_Args by discriminate. }
  assert (Ho : MakeRedisBatchCommandBitopOr dest sources
    = {| Cmd := "BITOP";
         Args := Some (bytes_of_string "OR" :: bytes_of_string dest
                         :: map bytes_of_string sources);
         Reply := None |}).
  { unfold MakeRedisBatchCommandBitopOr.
    now rewrite WriteStringArgs_Args by discriminate. }
  split; [exact Ha|]. split; [exact Ho|]. split; [reflexivity|].
  rewrite Ha, Ho. simpl. now rewrite length_map.
Qed.

(** ** The stop watch *)

Section StopWatchProperties.
Context `{TimeLibrary} {C : Type}.
Implicit Types (p : StopWatches.StopWatch (C := C)).

(** X20.  A stop watch that was never started: [Stop], however often,
    leaves the duration at zero, and [LogDuration] then logs nothing. *)
Theorem StopWatch_never_started (connection : C) operation (nows : list Clock) log :
  let p := fold_left StopWatches.Stop nows
             (StopWatches.MakeStopWatch connection operation) in
  p = StopWatches.MakeStopWatch connection operation
  /\ StopWatches.Duration p = 0
  /\ StopWatches.LogDuration p log = (p, log).
Proof.
  assert (Hfold : fold_left StopWatches.Stop nows
                    (StopWatches.MakeStopWatch connection operation)
                  = StopWatches.MakeStopWatch connection operation).
  { induction nows as [|now rest IH]; simpl; [reflexivity|].
    unfold StopWatches.Stop at 2. simpl. now rewrite Time_IsZero_zero. }
  simpl. rewrite Hfold. repeat split.
Qed.

(** X21.  [LogDuration] never changes the stop watch.  With a duration
    that is not positive it logs nothing.  With a positive duration it
    logs one line, for the connection and operation of the stop watch,
    whose four numbers are the duration in nanoseconds and its whole
    microseconds, milliseconds and seconds, each cut off, not rounded. *)
Theorem StopWatch_LogDuration_line p log :
  (StopWatches.LogDuration p log).1 = p
  /\ (StopWatches.Duration p <= 0 -> StopWatches.LogDuration p log = (p, log))
  /\ (0 < StopWatches.Duration p ->
      exists line,
        StopWatches.LogDuration p log = (p, (log ++ [line])%list)
        /\ StopWatches.line_Connection line = StopWatches.Connection p
        /\ StopWatches.line_Operation line = StopWatches.Operation p
        /\ StopWatches.line_ns line = StopWatches.Duration p
        /\ 1000 * StopWatches.line_micro line <= StopWatches.line_ns line
           < 1000 * StopWatches.line_micro line + 1000
        /\ 1000000 * StopWatches.line_milli line <= StopWatches.line_ns line
           < 1000000 * StopWatches.line_milli line + 1000000
        /\ 1000000000 * StopWatches.line_sec line <= StopWatches.line_ns line
           < 1000000000 * StopWatches.line_sec line + 1000000000).
Proof.
  unfold StopWatches.LogDuration.
  destruct (Z.ltb_spec 0 (StopWatches.Duration p)) as [Hpos|Hneg].
  - split; [reflexivity|]. split; [lia|]. intros _.
    eexists. split; [reflexivity|]. simpl.
    do 3 (split; [reflexivity|]).
    change Second with 1000000000.
    change Millisecond with 1000000.
    change Microsecond with 1000.
    rewrite !Z.quot_div_nonneg by lia.
    pose proof (Z.mul_div_le (StopWatches.Duration p) 1000 ltac:(lia)).
    pose proof (Z.mul_succ_div_gt (StopWatches.Duration p) 1000 ltac:(lia)).
    pose proof (Z.mul_div_le (StopWatches.Duration p) 1000000 ltac:(lia)).
    pose proof (Z.mul_succ_div_gt (StopWatches.Duration p) 1000000 ltac:(lia)).
    pose proof (Z.mul_div_le (StopWatches.Duration p) 1000000000 ltac:(lia)).
    pose proof (Z.mul_succ_div_gt (StopWatches.Duration p) 1000000000 ltac:(lia)).
    lia.
  - split; [reflexivity|]. split; [reflexivity|]. lia.
Qed.

(** X22.  [Start] followed by [Stop] measures what [time.Since] says of
    the reading taken at the start, whatever the stop watch held before;
    only if that reading is the zero time does [Stop] leave the duration
    at zero.  [Start] alone resets the duration, so that logging right
    after it logs nothing. *)
Theorem StopWatch_Start_Stop p (t0 t1 : Clock) log :
  StopWatches.Duration (StopWatches.Stop (StopWatches.Start p t0) t1)
  = (if Time_IsZero (time_Now t0) then 0 else time_Since (time_Now t0) t1)
  /\ StopWatches.Time (StopWatches.Stop (StopWatches.Start p t0) t1) = time_Now t0
  /\ StopWatches.LogDuration (StopWatches.Start p t0) log
     = (StopWatches.Start p t0, log).
Proof.
  unfold StopWatches.Stop, StopWatches.Start. simpl.
  destruct (Time_IsZero (time_Now t0)); repeat split.
Qed.

End StopWatchProperties.

(** ** The memcached server process *)

Section MemcachedProperties.
Context `{ProcessLibrary}.
Context (MemcachedConnection_Close : Memcached.MemcachedConnection -> Host -> Host).
Implicit Types (p : Memcached.MemcachedServerProcess) (w : Host).

(** X23.  [StartMemcachedServer] with a nil logger fails with "Nil
    logger" before anything is done on the host.  In general it returns
    a server exactly when it returns no error; the server then has the
    port found, a running command and no connection yet, and its
    [Connection] does not panic and is for 127.0.0.1 and that port. *)
Theorem Memcached_Start_outcome logger w :
  exists s err w',
    Memcached.StartMemcachedServer logger w = (s, err, w')
    /\ (logger = None ->
        (s, err, w') = (None, Some (errors_New "Nil logger"), w))
    /\ (s = None <-> err <> None)
    /\ (forall p, s = Some p ->
          Memcached.port p = (findPort w).1.1
          /\ Memcached.connection p = None
          /\ exists c p1,
               Memcached.Connection p = Some (c, p1)
               /\ Memcached.Url c
                  = String.append "127.0.0.1:" (decimal (findPort w).1.1)
               /\ Memcached.Id c = "Test").
Proof.
  unfold Memcached.StartMemcachedServer.
  destruct logger as [l|].
  - destruct (findPort w) as [[n [e|]] w1]; simpl.
    + exists None, (Some e), w1. repeat split; try discriminate; congruence.
    + destruct (Cmd_Start _ w1) as [[[e|] c] w2].
      * exists None, (Some e), w2. repeat split; try discriminate; congruence.
      * eexists (Some _), None, _. split; [reflexivity|].
        split; [discriminate|]. split; [split; congruence|].
        intros p [= <-]. simpl. repeat split.
        unfold Memcached.Connection. simpl. eauto.
  - exists None, (Some (errors_New "Nil logger")), w.
    repeat split; try discriminate; congruence.
Qed.

(** X24.  [Close] always returns nil and leaves a server with no
    command, no connection and port 0, whose url is "127.0.0.1:0" and
    whose [Connection] panics.  A second [Close] does nothing on the
    host. *)
Theorem Memcached_Close_resets p w :
  exists p' w',
    Memcached.Close MemcachedConnection_Close p w = (None, p', w')
    /\ Memcached.port p' = 0
    /\ Memcached.cmd p' = None /\ Memcached.connection p' = None
    /\ Memcached.Url_ p' = "127.0.0.1:0"
    /\ Memcached.Connection p' = None
    /\ Memcached.Close MemcachedConnection_Close p' w' = (None, p', w').
Proof.
  unfold Memcached.Close. do 2 eexists. split; [reflexivity|]. simpl.
  repeat split.
Qed.

(** X25.  [Connection] panics exactly when no command is running.
    Otherwise it returns the connection held, making one for the url of
    the server with id "Test" if none is held; the server then holds the
    connection returned, so asking again returns the same one and
    changes nothing. *)
Theorem Memcached_Connection_cached p :
  (Memcached.Connection p = None <-> Memcached.cmd p = None)
  /\ forall c p1,
       Memcached.Connection p = Some (c, p1) ->
       Memcached.connection p1 = Some c
       /\ Memcached.Connection p1 = Some (c, p1)
       /\ Memcached.port p1 = Memcached.port p
       /\ Memcached.cmd p1 = Memcached.cmd p
       /\ match Memcached.connection p with
          | Some c0 => c = c0 /\ p1 = p
          | None => c = {| Memcached.Url := Memcached.Url_ p;
                           Memcached.Logger := Memcached.logger p;
                           Memcached.Id := "Test" |}
          end.
Proof.
  unfold Memcached.Connection.
  destruct (Memcached.cmd p) as [k|] eqn:Hk.
  - destruct (Memcached.connection p) as [c0|] eqn:Hc.
    + split; [split; discriminate|].
      intros c p1 [= <- <-]. rewrite Hk, Hc. repeat split; assumption.
    + split; [split; discriminate|].
      intros c p1 [= <- <-]. simpl. repeat split; assumption.
  - split; [split; reflexivity|]. discriminate.
Qed.

End MemcachedProperties.

(** ** Whole seconds through float64 *)

Lemma digits2_pos_bounds m :
  2 ^ (Z.pos (digits2_pos m) - 1) <= Z.pos m < 2 ^ Z.pos (digits2_pos m).
Proof.
  induction m as [m IH|m IH|]; simpl digits2_pos.
  - pose proof (Z.pow_succ_r 2 (Z.pos (digits2_pos m) - 1) ltac:(lia)) as E1.
    replace (Z.succ (Z.pos (digits2_pos m) - 1))
      with (Z.pos (digits2_pos m)) in E1 by lia.
    pose proof (Z.pow_succ_r 2 (Z.pos (digits2_pos m)) ltac:(lia)) as E2.
    rewrite Pos2Z.inj_succ.
    replace (Z.succ (Z.pos (digits2_pos m)) - 1)
      with (Z.pos (digits2_pos m)) by lia.
    rewrite E2, Pos2Z.inj_xI. lia.
  - pose proof (Z.pow_succ_r 2 (Z.pos (digits2_pos m) - 1) ltac:(lia)) as E1.
    replace (Z.succ (Z.pos (digits2_pos m) - 1))
      with (Z.pos (digits2_pos m)) in E1 by lia.
    pose proof (Z.pow_succ_r 2 (Z.pos (digits2_pos m)) ltac:(lia)) as E2.
    rewrite Pos2Z.inj_succ.
    replace (Z.succ (Z.pos (digits2_pos m)) - 1)
      with (Z.pos (digits2_pos m)) by lia.
    rewrite E2. pose proof (Pos2Z.inj_xO m). lia.
  - simpl. lia.
Qed.

Lemma digits2_pos_shift m n :
  digits2_pos (Pos.iter xO m n) = (digits2_pos m + n)%positive.
Proof.
  induction n as [|n IH] using Pos.peano_ind.
  - simpl. lia.
  - rewrite Pos.iter_succ. simpl. rewrite IH. lia.
Qed.

Lemma Zpos_shift m n : Z.pos (Pos.iter xO m n) = Z.pos m * 2 ^ Z.pos n.
Proof.
  induction n as [|n IH] using Pos.peano_ind.
  - simpl. lia.
  - rewrite Pos.iter_succ, Pos2Z.inj_succ, Z.pow_succ_r by lia.
    pose proof (Pos2Z.inj_xO (Pos.iter xO m n)). simpl Pos.iter. lia.
Qed.

(** An integer below 2^53 in magnitude is a float64: converting it
    rounds nothing away. *)
Lemma binary_round_exact sx m :
  Z.pos m < 2 ^ 53 ->
  exists m' e',
    binary_round prec emax sx m 0 = S754_finite sx m' e'
    /\ e' <= 0 /\ Z.pos m' = Z.pos m * 2 ^ (- e').
Proof.
  intros Hm.
  pose proof (digits2_pos_bounds m) as [Hlo _].
  assert (Hd : Z.pos (digits2_pos m) <= 53).
  { destruct (Z.le_gt_cases (Z.pos (digits2_pos m)) 53) as [|Hgt]; [assumption|].
    assert (2 ^ 53 <= 2 ^ (Z.pos (digits2_pos m) - 1))
      by (apply Z.pow_le_mono_r; lia).
    lia. }
  assert (Hfexp : forall d, 1 <= d <= 53 -> fexp prec emax d = d - 53).
  { intros d Hd1. unfold fexp, emin, prec, emax. lia. }
  assert (Haligned : exists mz,
    shl_align m 0 (fexp prec emax (Z.pos (digits2_pos m) + 0))
    = (mz, Z.pos (digits2_pos m) - 53)
    /\ digits2_pos mz = 53%positive
    /\ Z.pos mz = Z.pos m * 2 ^ (53 - Z.pos (digits2_pos m))).
  { rewrite Z.add_0_r, Hfexp by lia. unfold shl_align.
    destruct (Z.pos (digits2_pos m) - 53 - 0) as [|n|n] eqn:En.
    - exists m. assert (E : Z.pos (digits2_pos m) = 53) by lia.
      split; [now rewrite E|]. split; [now injection E|].
      rewrite E. simpl. lia.
    - lia.
    - exists (Pos.iter xO m n). split; [reflexivity|]. split.
      + rewrite digits2_pos_shift. lia.
      + rewrite Zpos_shift. do 2 f_equal. lia. }
  destruct Haligned as (mz & Hal & Hdz & Hval).
  exists mz, (Z.pos (digits2_pos m) - 53).
  split; [|split; [lia|rewrite Hval; do 2 f_equal; lia]].
  unfold binary_round. rewrite Hal.
  unfold binary_round_aux.
  assert (Hshr : forall l,
    shr_fexp prec emax (Z.pos mz) (Z.pos (digits2_pos m) - 53) l
    = (shr_record_of_loc (Z.pos mz) l, Z.pos (digits2_pos m) - 53)).
  { intros l. unfold shr_fexp. simpl Zdigits2. rewrite Hdz.
    rewrite Hfexp by lia.
    replace (53 + (Z.pos (digits2_pos m) - 53) - 53
             - (Z.pos (digits2_pos m) - 53)) with 0 by lia.
    reflexivity. }
  rewrite Hshr. simpl. rewrite Hshr. simpl.
  destruct (Z.leb_spec (Z.pos (digits2_pos m) - 53) (emax - prec)) as [_|Hbad];
    [reflexivity|].
  unfold emax, prec in Hbad. lia.
Qed.

Lemma float64_of_int64_exact (n : Z) :
  - 2 ^ 53 < n < 2 ^ 53 ->
  int64_of_float64 (float64_of_int64 n) = n.
Proof.
  intros Hn. unfold float64_of_int64, binary_normalize.
  destruct n as [|m|m].
  - reflexivity.
  - destruct (binary_round_exact false m) as (m' & e' & -> & He & Hv); [lia|].
    simpl. rewrite Z.shiftl_div_pow2 by lia.
    rewrite Hv. apply Z.div_mul. apply Z.pow_nonzero; lia.
  - destruct (binary_round_exact true m) as (m' & e' & -> & He & Hv); [lia|].
    simpl. rewrite Z.shiftl_div_pow2 by lia.
    rewrite Hv, Z.div_mul by (apply Z.pow_nonzero; lia). reflexivity.
Qed.

(** For a duration that is a whole number of seconds, [Seconds] is that
    number converted, with nothing added. *)
Lemma Seconds_whole (s : Z) :
  Seconds (s * Second) = SFadd prec emax (float64_of_int64 s) (S754_zero false).
Proof.
  unfold Seconds.
  rewrite Z.quot_mul, Z.rem_mul by discriminate.
  reflexivity.
Qed.

(** X26.  For every duration of a whole number of seconds that an int64
    of nanoseconds can hold, [ExpireIn] writes exactly that number of
    seconds: the conversion through float64 loses nothing. *)
Theorem ExpireIn_whole_seconds (key : string) (s : Z) :
  - 2 ^ 63 <= s * Second < 2 ^ 63 ->
  MakeRedisBatchCommandExpireIn key (s * Second)
  = {| Cmd := "EXPIRE";
       Args := Some [bytes_of_string key; bytes_of_string (decimal s)];
       Reply := None |}.
Proof.
  intros Hs.
  assert (Hrange : - 2 ^ 53 < s < 2 ^ 53).
  { change Second with 1000000000 in Hs. lia. }
  rewrite ExpireIn_shape, Seconds_whole.
  assert (E : int64_of_float64
                (SFadd prec emax (float64_of_int64 s) (S754_zero false)) = s).
  { rewrite <- (float64_of_int64_exact s Hrange) at 2.
    unfold float64_of_int64, binary_normalize.
    destruct s as [|m|m]; [reflexivity| |].
    - destruct (binary_round_exact false m) as (m' & e' & -> & _); [lia|].
      reflexivity.
    - destruct (binary_round_exact true m) as (m' & e' & -> & _); [lia|].
      reflexivity. }
  now rewrite E.
Qed.

(** ** The further properties at work *)

Section MoreRuns.
Import Model.

(** X1 at work: opening while the server is down sets the default
    timeout and leaves the connection closed. *)
Lemma Redis_Open_outcome_witness :
  let p1 := Redis.set_Timeout (10 * Second) closed in
  Redis.Open closed down
  = (Some (errors_New "dial tcp: connection refused"), p1, down)
  /\ Redis.Timeout p1 <> 0
  /\ Redis.client p1 = Redis.client closed.
Proof.
  intros p1. split; [reflexivity|].
  destruct (Redis_Open_outcome (H := radix) closed down
              (Some (errors_New "dial tcp: connection refused")) p1 down
              eq_refl)
    as (_ & _ & _ & Ht & _ & _ & Herr).
  split; [exact Ht|].
  exact (proj1 (Herr _ eq_refl)).
Defined.

(** X5 at work: the answer to a ping comes with the connection open. *)
Lemma Redis_GetReply_reply_open_witness :
  let p := Redis.set_client (H := radix)
             (Some (mkPipeline [("ping", [])])) closed in
  Redis.GetReply p up = (StatusReply (bytes_of_string "PONG"), opened, up)
  /\ Redis.IsOpen p = true /\ Redis.IsOpen opened = true.
Proof.
  intros p. split; [reflexivity|].
  destruct (Redis_GetReply_reply_open (H := radix) p up
              (StatusReply (bytes_of_string "PONG")) opened up
              eq_refl eq_refl) as (Hp & Ho & _).
  split; [exact Hp|exact Ho].
Defined.

(** X6 at work: three replies asked of a closed connection. *)
Lemma Redis_GetReply_never_reopens_witness :
  Redis.IsClosed closed = true
  /\ Redis.drain 3 closed down
     = (replicate 3 (ErrorReply (errors_New "connection is closed")),
        closed, down).
Proof.
  split; [reflexivity|].
  exact (Redis_GetReply_never_reopens (H := radix) 3 closed down eq_refl).
Defined.

(** X9 at work, on the batch SET, unknown command, GET. *)
Lemma Redis_BatchCommands_only_replies_witness :
  exists err p' h' w',
    Redis.BatchCommands opened [0%nat; 2%nat; 1%nat] commands up
    = Some (err, p', h', w')
    /\ (forall q, set_Reply None <$> h' !! q = set_Reply None <$> commands !! q)
    /\ (forall q, q ∉ [0%nat; 2%nat; 1%nat] -> h' !! q = commands !! q)
    /\ Redis.Url p' = "redis:6379" /\ Redis.Id p' = "a".
Proof.
  destruct (Redis.BatchCommands opened [0%nat; 2%nat; 1%nat] commands up)
    as [[[[err p'] h'] w']|] eqn:E.
  - exists err, p', h', w'. split; [reflexivity|].
    exact (Redis_BatchCommands_only_replies (H := radix)
             opened [0%nat; 2%nat; 1%nat] commands up err p' h' w' E).
  - vm_compute in E. discriminate.
Defined.

(** X10 at work, on the same batch: it ends with an error. *)
Lemma Redis_BatchCommands_error_iff_closed_witness :
  exists err p' h' w',
    Redis.BatchCommands opened [0%nat; 2%nat; 1%nat] commands up
    = Some (err, p', h', w')
    /\ (err = None <-> [0%nat; 2%nat; 1%nat] = [] \/ Redis.IsOpen p' = true)
    /\ (forall e, err = Some e ->
          Redis.IsClosed p' = true
          /\ exists q c r,
               q ∈ [0%nat; 2%nat; 1%nat] /\ h' !! q = Some c
               /\ Reply c = Some (ErrorReply r)
               /\ e = errors_New (Redis.closed_message c)).
Proof.
  destruct (Redis.BatchCommands opened [0%nat; 2%nat; 1%nat] commands up)
    as [[[[err p'] h'] w']|] eqn:E.
  - exists err, p', h', w'. split; [reflexivity|].
    exact (Redis_BatchCommands_error_iff_closed (H := radix)
             opened [0%nat; 2%nat; 1%nat] commands up err p' h' w' E).
  - vm_compute in E. discriminate.
Defined.



(** X17 at work: a Get on a broken connection fails and closes it; with
    the server still down the next operation fails in [Open]. *)
Lemma Thrift_forwarded_after_error_witness :
  let p := Thrift.set_client (H := hbase) (Some 0%nat)
             (Thrift.makeLazyThriftConnection "hbase:9090" "a" 0).1 in
  let p' := Thrift.set_client None p in
  Thrift.Get p "t" "r" "c" ∅ false
  = Some (None, Some (errors_New "broken pipe"), p', false)
  /\ Thrift.IsClosed p' = true
  /\ Thrift.AtomicIncrement p' "t" "r" "c" 1 false
     = Some (0, Some (errors_New "connection refused"),
             Thrift.set_Timeout (10 * Second) p', false).
Proof.
  intros p p'. split; [reflexivity|].
  destruct (Thrift_forwarded_after_error (H := hbase)
              None (fun k => HbaseClient_Get k "t" "r" "c" ∅)
              0 (fun k => HbaseClient_AtomicIncrement k "t" "r" "c" 1)
              p false None (errors_New "broken pipe") p' false eq_refl)
    as [Hcl Hnext].
  split; [exact Hcl|exact Hnext].
Defined.

(** X26 at work: ninety seconds. *)
Lemma ExpireIn_whole_seconds_witness :
  MakeRedisBatchCommandExpireIn "key" (90 * Second)
  = {| Cmd := "EXPIRE";
       Args := Some [bytes_of_string "key"; bytes_of_string "90"];
       Reply := None |}.
Proof.
  apply (ExpireIn_whole_seconds "key" 90).
  split; [discriminate|reflexivity].
Defined.

(** X4 at work: a GET appended on an open connection goes to the
    client held, with no dial. *)
Lemma Redis_Append_outcome_witness :
  let p' := Redis.set_client (H := radix)
              (Some (mkPipeline [("GET", [key])])) closed in
  Redis.Append opened "GET" [key] up = Some (p', up)
  /\ exists k w0,
       Client_Append k "GET" [key] w0 = (mkPipeline [("GET", [key])], up)
       /\ ((Redis.client opened = Some k /\ w0 = up
            /\ p' = Redis.set_client
                      (Some (mkPipeline [("GET", [key])])) opened)
           \/ (Redis.client opened = None
               /\ exists p0, Redis.Open opened up = (None, p0, w0)
                             /\ Redis.client p0 = Some k
                             /\ p' = Redis.set_client
                                       (Some (mkPipeline [("GET", [key])]))
                                       p0)).
Proof.
  intros p'. split; [reflexivity|].
  exact (Redis_Append_outcome (H := radix) opened "GET" [key] up p' up eq_refl).
Defined.

(** X7 at work: an unknown command leaves the connection closed and is
    answered by an error reply. *)
Lemma Redis_Cmd_reply_open_witness :
  Redis.Cmd_ opened "FLUSHALL" [] up
  = Some (ErrorReply (errors_New "ERR unknown command"), closed, up)
  /\ Redis.IsClosed closed = true
  /\ exists e, ErrorReply (errors_New "ERR unknown command") = ErrorReply e.
Proof.
  split; [reflexivity|]. split; [reflexivity|].
  exact (proj2 (Redis_Cmd_reply_open (H := radix) opened "FLUSHALL" [] up
                  (ErrorReply (errors_New "ERR unknown command")) closed up
                  eq_refl) eq_refl).
Defined.

(** X8 at work: a ping answered by PONG. *)
Lemma Redis_Ping_healthy_witness :
  Redis.Ping opened up = Some (None, opened, up)
  /\ Redis.IsOpen opened = true.
Proof.
  split; [reflexivity|].
  exact (proj1 (Redis_Ping_healthy (H := radix) opened up None opened up
                  eq_refl) eq_refl).
Defined.

(** X11 at work: the pointer 7 points to nothing. *)
Lemma Redis_BatchCommands_nil_pointer_witness :
  commands !! 7%nat = None
  /\ Redis.BatchCommands opened [0%nat; 7%nat] commands up = None.
Proof.
  split; [reflexivity|].
  apply (Redis_BatchCommands_nil_pointer (H := radix) opened
           [0%nat; 7%nat] commands up 7%nat); [|reflexivity].
  right. left.
Defined.

(** X13 at work: the factory against a server that is up. *)
Lemma Redis_makeAgressive_outcome_witness :
  let p := Redis.set_client (H := radix) (Some (mkPipeline []))
             (Redis.set_Timeout (10 * Second) closed) in
  Redis.makeAgressiveRedisConnection "redis:6379" "a" 0 up
  = Some (Some p, None, up)
  /\ ((exists p0, Some p = Some p0 /\ None = (None : option error)
                  /\ Redis.IsOpen p0 = true
                  /\ Redis.Url p0 = "redis:6379" /\ Redis.Id p0 = "a"
                  /\ Redis.Timeout p0 <> 0)
      \/ (Some p = None /\ exists e : error, None = Some e)).
Proof.
  intros p. split; [reflexivity|].
  exact (Redis_makeAgressive_outcome (H := radix) "redis:6379" "a" 0 up
           (Some p) None up eq_refl).
Defined.

(** X16 at work: a Get on a connection whose server went down. *)
Lemma Thrift_forwarded_error_iff_closed_witness :
  let p := Thrift.set_client (H := hbase) (Some 0%nat)
             (Thrift.makeLazyThriftConnection "hbase:9090" "a" 0).1 in
  Thrift.Get p "t" "r" "c" ∅ false
  = Some (None, Some (errors_New "broken pipe"), Thrift.set_client None p, false)
  /\ (Some (errors_New "broken pipe") = None
      <-> Thrift.IsOpen (Thrift.set_client None p) = true).
Proof.
  intros p. split; [reflexivity|].
  exact (proj2 (proj2 (Thrift_forwarded_error_iff_closed (H := hbase)))
           p "t" "r" "c" ∅ false None (Some (errors_New "broken pipe"))
           (Thrift.set_client None p) false eq_refl).
Defined.

End MoreRuns.

(** ** The implicit open *)

Section RedisImplicitOpen.
Context `{RadixClient}.
Implicit Types (p : Redis.RedisConnection) (w : World).

Lemma Redis_Append_implicit_open p cmd args w p1 w1 :
  Redis.client p = None ->
  Redis.Open p w = (None, p1, w1) ->
  Redis.Append p cmd args w = Redis.Append p1 cmd args w1.
Proof.
  intros Hk Ho. destruct (Redis_Open_ok _ _ _ _ Ho) as [k Hk1].
  unfold Redis.Append, Redis.IsOpen. rewrite Hk, Hk1. simpl. now rewrite Ho.
Qed.

(** X27.  [Cmd] and [Ping] on a closed connection whose [Open] fails:
    the caller gets the closed-connection error, not the error of the
    dial, and the connection and the world are as the failed [Open] left
    them. *)
Theorem Redis_Ping_unreachable p cmd args w e p1 w1 :
  Redis.client p = None ->
  Redis.Open p w = (Some e, p1, w1) ->
  Redis.Cmd_ p cmd args w = Some (ErrorReply ErrConnectionIsClosed, p1, w1)
  /\ Redis.Ping p w = Some (Some ErrConnectionIsClosed, p1, w1)
  /\ Redis.IsClosed p1 = true.
Proof.
  intros Hk Ho.
  assert (Hk1 : Redis.client p1 = None)
    by now rewrite (Redis_Open_failed _ _ _ _ _ Ho).
  assert (Hcmd : forall c a,
    Redis.Cmd_ p c a w = Some (ErrorReply ErrConnectionIsClosed, p1, w1)).
  { intros c a. unfold Redis.Cmd_.
    rewrite (Redis_Append_nil_failed _ c a _ _ _ _ Hk Ho).
    now rewrite (Redis_GetReply_nil _ _ Hk1). }
  split; [apply Hcmd|]. split.
  - unfold Redis.Ping. now rewrite Hcmd.
  - now apply Redis_IsClosed_client.
Qed.

(** X28.  A batch that is not empty on a closed connection whose [Open]
    succeeds runs as the same batch on the connection that [Open]
    returns: the first [Append] opens it, and nothing else differs. *)
Theorem Redis_BatchCommands_implicit_open p q rest (h : store) w p1 w1 :
  Redis.client p = None ->
  Redis.Open p w = (None, p1, w1) ->
  Redis.BatchCommands p (q :: rest) h w
  = Redis.BatchCommands p1 (q :: rest) h w1.
Proof.
  intros Hk Ho. unfold Redis.BatchCommands. simpl.
  destruct (h !! q) as [c|]; [|reflexivity].
  now destruct (Args c);
    rewrite (Redis_Append_implicit_open p _ _ w p1 w1 Hk Ho).
Qed.

End RedisImplicitOpen.

Section ImplicitOpenRuns.
Import Model.

(** X27 at work: a ping while the server is down. *)
Lemma Redis_Ping_unreachable_witness :
  let p1 := Redis.set_Timeout (10 * Second) closed in
  Redis.Cmd_ closed "ping" [] down
  = Some (ErrorReply (errors_New "connection is closed"), p1, down)
  /\ Redis.Ping closed down
     = Some (Some (errors_New "connection is closed"), p1, down)
  /\ Redis.IsClosed p1 = true.
Proof.
  exact (Redis_Ping_unreachable (H := radix) closed "ping" [] down
           (errors_New "dial tcp: connection refused")
           (Redis.set_Timeout (10 * Second) closed) down eq_refl eq_refl).
Defined.

(** X28 at work: SET then GET on a closed connection, server up. *)
Lemma Redis_BatchCommands_implicit_open_witness :
  let p1 := Redis.set_client (H := radix) (Some (mkPipeline []))
              (Redis.set_Timeout (10 * Second) closed) in
  Redis.Open closed up = (None, p1, up)
  /\ Redis.BatchCommands closed [0%nat; 1%nat] commands up
     = Redis.BatchCommands p1 [0%nat; 1%nat] commands up.
Proof.
  intros p1. split; [reflexivity|].
  exact (Redis_BatchCommands_implicit_open (H := radix)
           closed 0%nat [1%nat] commands up p1 up eq_refl eq_refl).
Defined.

End ImplicitOpenRuns.
